(** * rank-predictor: response-sheet parser, score calculator, rank estimator

    A shallow embedding of [src/parser.js] ([parseAnswers], [mapToLetter],
    [computeScore], [computeSectionScores]) and of the rank-estimation block
    of the [POST /api/parse] handler in [src/server.js].

    Conventions of the embedding.
    - A JavaScript string is a [string] of ASCII code units; the string
      built-ins below ([trim], [toUpperCase], [includes], the regular
      expressions) are the built-ins restricted to ASCII text.
    - A JavaScript number that carries marks, accuracy, a percentile or a
      rank is an IEEE-754 binary64 value ([float], the kernel's primitive
      floats); counters incremented from 0 are [nat].
    - cheerio's [load] (the HTML parser) is an external library: the parser
      is defined over the document tree it returns, and [parseAnswers] takes
      [load] as a section variable.
    - A thrown exception is the [Throw] case of [completion].
    - The store is external: [doc.save()] can be refused (by the
      validation of the schema, for one), and the handler is defined for
      any choice of the documents the store accepts; the two counts of
      the rank estimation are taken to succeed.
    - [computeScore] is defined twice: on pairs whose fields [String]
      converts, which are the pairs of the parser ([Scoring]), and on
      pair objects with any fields ([Fields]), where it can throw. *)

From Stdlib Require Import List String Ascii Bool Arith ZArith Lia.
From Stdlib Require Import Floats Uint63.
From Stdlib Require Import Permutation.
Import ListNotations.

Set Implicit Arguments.
Set Warnings "-register-all".

Local Open Scope string_scope.
Local Open Scope list_scope.

(* ================================================================== *)
(** ** Strings *)
(* ================================================================== *)

Module JsString.

(** White space and line terminators of ECMAScript, ASCII part:
    TAB, LF, VT, FF, CR, SP. *)
Definition is_space (c : ascii) : bool :=
  match nat_of_ascii c with
  | 9 | 10 | 11 | 12 | 13 | 32 => true
  | _ => false
  end.

Definition is_digit (c : ascii) : bool :=
  let n := nat_of_ascii c in ((48 <=? n) && (n <=? 57))%nat.

Definition is_lower (c : ascii) : bool :=
  let n := nat_of_ascii c in ((97 <=? n) && (n <=? 122))%nat.

Definition is_upper (c : ascii) : bool :=
  let n := nat_of_ascii c in ((65 <=? n) && (n <=? 90))%nat.

(** [\w]: letters, digits and underscore. *)
Definition is_word (c : ascii) : bool :=
  is_lower c || is_upper c || is_digit c || Ascii.eqb c "_".

Definition upper_char (c : ascii) : ascii :=
  if is_lower c then ascii_of_nat (nat_of_ascii c - 32) else c.

(** [String.prototype.toUpperCase]. *)
Fixpoint toUpperCase (s : string) : string :=
  match s with
  | EmptyString => EmptyString
  | String c s' => String (upper_char c) (toUpperCase s')
  end.

Fixpoint trimStart (s : string) : string :=
  match s with
  | EmptyString => EmptyString
  | String c s' => if is_space c then trimStart s' else s
  end.

Fixpoint trimEnd (s : string) : string :=
  match s with
  | EmptyString => EmptyString
  | String c s' =>
      match trimEnd s' with
      | EmptyString => if is_space c then EmptyString else String c EmptyString
      | t => String c t
      end
  end.

(** [String.prototype.trim]. *)
Definition trim (s : string) : string := trimEnd (trimStart s).

(** [s.includes(sub)]. *)
Fixpoint includes (s sub : string) : bool :=
  String.prefix sub s ||
  match s with
  | EmptyString => false
  | String _ s' => includes s' sub
  end.

(** [s.replace(/\s+/g, " ")]: every maximal run of white space becomes
    one space.  [in_run] records that the previous character was white
    space, whose replacement has already been written. *)
Fixpoint collapse_ws_from (in_run : bool) (s : string) : string :=
  match s with
  | EmptyString => EmptyString
  | String c s' =>
      if is_space c
      then (if in_run then collapse_ws_from true s'
            else String " " (collapse_ws_from true s'))
      else String c (collapse_ws_from false s')
  end.

Definition collapse_ws (s : string) : string := collapse_ws_from false s.

(** The first [n] characters of [s]. *)
Fixpoint take (n : nat) (s : string) : string :=
  match n, s with
  | S n', String c s' => String c (take n' s')
  | _, _ => EmptyString
  end.

Definition concat_all (l : list string) : string :=
  fold_right String.append EmptyString l.

(** Splitting an attribute value on white space (the class list). *)
Fixpoint tokens_from (cur : string) (s : string) : list string :=
  match s with
  | EmptyString => match cur with EmptyString => [] | _ => [cur] end
  | String c s' =>
      if is_space c
      then match cur with
           | EmptyString => tokens_from EmptyString s'
           | _ => cur :: tokens_from EmptyString s'
           end
      else tokens_from (cur ++ String c EmptyString) s'
  end.

Definition tokens (s : string) : list string := tokens_from EmptyString s.

End JsString.

(* ================================================================== *)
(** ** Regular expressions *)
(* ================================================================== *)

(** A backtracking matcher in continuation-passing style, as in the
    ECMAScript specification of RegExp: alternatives are tried left to
    right, a greedy star tries the longest run first and a lazy star the
    shortest.  Only the constructs of the four patterns of [parser.js]
    are present; a star is always over one character class. *)
Module Regex.
Import JsString.

Inductive regex : Type :=
| Eps
| Chr (p : ascii -> bool)
| Seq (r1 r2 : regex)
| Alt (r1 r2 : regex)
| Star (greedy : bool) (p : ascii -> bool)
| Group (i : nat) (r : regex)
| WordBoundary
| Bol
| Eol.

(** Captures, most recent first. *)
Definition captures := list (nat * string).

Fixpoint capture (i : nat) (c : captures) : option string :=
  match c with
  | [] => None
  | (j, s) :: c' => if Nat.eqb i j then Some s else capture i c'
  end.

Definition word_opt (c : option ascii) : bool :=
  match c with Some a => is_word a | None => false end.

Definition head (s : string) : option ascii :=
  match s with EmptyString => None | String c _ => Some c end.

(** What [s] has lost to become its suffix [s']. *)
Definition consumed (s s' : string) : string :=
  take (String.length s - String.length s') s.

Section Matcher.
Variable A : Type.

(** [rmatch r prev s caps k]: match [r] at the front of [s], [prev]
    being the character just before [s], then continue with [k]. *)
Fixpoint rmatch (r : regex) (prev : option ascii) (s : string)
         (caps : captures)
         (k : option ascii -> string -> captures -> option A)
  : option A :=
  match r with
  | Eps => k prev s caps
  | Chr p =>
      match s with
      | String c s' => if p c then k (Some c) s' caps else None
      | EmptyString => None
      end
  | Seq r1 r2 =>
      rmatch r1 prev s caps
             (fun prev' s' caps' => rmatch r2 prev' s' caps' k)
  | Alt r1 r2 =>
      match rmatch r1 prev s caps k with
      | Some x => Some x
      | None => rmatch r2 prev s caps k
      end
  | Star true p =>
      (fix greedy (prev : option ascii) (s : string) : option A :=
         match s with
         | String c s' =>
             if p c
             then match greedy (Some c) s' with
                  | Some x => Some x
                  | None => k prev s caps
                  end
             else k prev s caps
         | EmptyString => k prev s caps
         end) prev s
  | Star false p =>
      (fix lazy (prev : option ascii) (s : string) : option A :=
         match k prev s caps with
         | Some x => Some x
         | None =>
             match s with
             | String c s' => if p c then lazy (Some c) s' else None
             | EmptyString => None
             end
         end) prev s
  | Group i r' =>
      rmatch r' prev s caps
             (fun prev' s' caps' => k prev' s' ((i, consumed s s') :: caps'))
  | WordBoundary =>
      if xorb (word_opt prev) (word_opt (head s)) then k prev s caps
      else None
  | Bol => match prev with None => k prev s caps | Some _ => None end
  | Eol => match s with EmptyString => k prev s caps | _ => None end
  end.
End Matcher.

(** One successful match: the character before the rest, the rest of
    the input, and the captures. *)
Definition found : Type := (option ascii * string * captures)%type.

Definition match_at (r : regex) (prev : option ascii) (s : string)
  : option found :=
  rmatch r prev s [] (fun prev' s' caps => Some (prev', s', caps)).

(** [RegExp.prototype.exec] without the [g] flag: the leftmost match. *)
Fixpoint search (r : regex) (prev : option ascii) (s : string)
  : option found :=
  match match_at r prev s with
  | Some m => Some m
  | None =>
      match s with
      | EmptyString => None
      | String c s' => search r (Some c) s'
      end
  end.

(** [r.test(s)] and the truthiness of [s.match(r)]. *)
Definition test (r : regex) (s : string) : bool :=
  match search r None s with Some _ => true | None => false end.

(** The loop [while ((m = r.exec(s)) !== null)] for a pattern with the
    [g] flag: the captures of the successive matches, each search
    starting where the previous match ended.  [skip] counts the
    characters of the current match still to be passed.  (A match of
    the empty string would leave [lastIndex] in place and the loop
    would not end; the one pattern used with this loop always consumes
    characters.) *)
Fixpoint exec_all (r : regex) (prev : option ascii) (s : string)
         (skip : nat) : list captures :=
  match skip with
  | S n =>
      match s with
      | String c s' => exec_all r (Some c) s' n
      | EmptyString => []
      end
  | O =>
      match match_at r prev s with
      | Some (_, rest, caps) =>
          caps ::
          match s with
          | String c s' =>
              exec_all r (Some c) s'
                       (String.length s - String.length rest - 1)
          | EmptyString => []
          end
      | None =>
          match s with
          | String c s' => exec_all r (Some c) s' 0
          | EmptyString => []
          end
      end
  end.

(** *** Building patterns *)

Definition chr (c : ascii) : regex := Chr (Ascii.eqb c).

(** A character under the [i] flag. *)
Definition chr_i (c : ascii) : regex :=
  Chr (fun x => Ascii.eqb (upper_char x) (upper_char c)).

Fixpoint lit (s : string) : regex :=
  match s with
  | EmptyString => Eps
  | String c s' => Seq (chr c) (lit s')
  end.

Fixpoint lit_i (s : string) : regex :=
  match s with
  | EmptyString => Eps
  | String c s' => Seq (chr_i c) (lit_i s')
  end.

Definition plus (p : ascii -> bool) : regex := Seq (Chr p) (Star true p).
Definition opt (r : regex) : regex := Alt r Eps.
Definition any (c : ascii) : bool :=
  negb (Ascii.eqb c "010" || Ascii.eqb c "013").

(** [/^Q\.\d+$/] *)
Definition rx_question : regex :=
  Seq Bol (Seq (lit "Q.") (Seq (plus is_digit) Eol)).

(** [/^(\d+)\./] *)
Definition rx_option_number : regex :=
  Seq Bol (Seq (Group 1 (plus is_digit)) (chr ".")).

(** [/NOT\s*ATTEMPTED/i] *)
Definition rx_not_attempted : regex :=
  Seq (lit_i "NOT") (Seq (Star true is_space) (lit_i "ATTEMPTED")).

Definition colon_or_dash (c : ascii) : bool :=
  Ascii.eqb c ":" || Ascii.eqb c "-".

(** [[A-D]] under the [i] flag. *)
Definition a_to_d (c : ascii) : bool :=
  let n := nat_of_ascii (upper_char c) in ((65 <=? n) && (n <=? 68))%nat.

(** [/Your\s*Answer\s*[:\-]?\s*([A-D]|--|Not Attempted)\b.*?Correct\s*Answer\s*[:\-]?\s*([A-D])/gi] *)
Definition rx1 : regex :=
  Seq (lit_i "Your")
 (Seq (Star true is_space)
 (Seq (lit_i "Answer")
 (Seq (Star true is_space)
 (Seq (opt (Chr colon_or_dash))
 (Seq (Star true is_space)
 (Seq (Group 1 (Alt (Chr a_to_d) (Alt (lit "--") (lit_i "Not Attempted"))))
 (Seq WordBoundary
 (Seq (Star false any)
 (Seq (lit_i "Correct")
 (Seq (Star true is_space)
 (Seq (lit_i "Answer")
 (Seq (Star true is_space)
 (Seq (opt (Chr colon_or_dash))
 (Seq (Star true is_space)
      (Group 2 (Chr a_to_d)))))))))))))))).

End Regex.

(* ================================================================== *)
(** ** Numbers *)
(* ================================================================== *)

Module JsNumber.
Local Open Scope float_scope.

(** A counter as a number (exact below 2^53; the length of an array is
    below 2^32). *)
Definition of_nat (n : nat) : float :=
  PrimFloat.of_uint63 (Uint63.of_Z (Z.of_nat n)).

Definition of_Z (z : Z) : float :=
  if (z <? 0)%Z then - PrimFloat.of_uint63 (Uint63.of_Z (- z))
  else PrimFloat.of_uint63 (Uint63.of_Z z).

(** [Math.round]: the integer nearest to [x], a tie going up; NaN, the
    infinities, the zeros and the integers are returned as they are,
    and a result of zero keeps the sign of [x].  A finite [x] is
    [(-1)^s * m * 2^e]; for [e < 0] the rounding is done on integers. *)
Definition Math_round (x : float) : float :=
  match Prim2SF x with
  | S754_finite s m e =>
      if (0 <=? e)%Z then x
      else
        let v := if s then Z.neg m else Z.pos m in
        let r := Z.shiftr (v + Z.shiftl 1 (- e - 1)) (- e) in
        if (r =? 0)%Z then (if s then neg_zero else zero) else of_Z r
  | _ => x
  end.

(** [Math.max] of two numbers. *)
Definition Math_max (a b : float) : float :=
  if is_nan a || is_nan b then nan
  else if a <? b then b
  else if b <? a then a
  else if get_sign a then b else a.

(** [Math.round(x * 100) / 100]. *)
Definition round2 (x : float) : float := Math_round (x * 100) / 100.

End JsNumber.

(* ================================================================== *)
(** ** Values *)
(* ================================================================== *)

Module JsValue.

(** The values a field of a pair can hold.  A value that is neither a
    string nor [null] nor [undefined] (a boolean, a number, an array,
    an object, a function) is given by the two things the program
    observes of it: its truthiness and the result of [String(v)];
    [0] is [NonString false "0"], [[]] is [NonString true ""].  Values
    whose conversion to a string itself throws (an object without
    [toString], or with one that throws) are not represented here: the
    parser never builds one; [Fields.field] adds them for the calls of
    [computeScore] from outside. *)
Inductive value : Type :=
| Undefined
| Null
| Str (s : string)
| NonString (truthy : bool) (text : string).

(** [ToBoolean]. *)
Definition truthy (v : value) : bool :=
  match v with
  | Undefined | Null => false
  | Str s => negb (String.eqb s "")
  | NonString t _ => t
  end.

(** [String(v)], which is also the property key [v] is used as. *)
Definition String_ (v : value) : string :=
  match v with
  | Undefined => "undefined"
  | Null => "null"
  | Str s => s
  | NonString _ t => t
  end.

(** [a || b]. *)
Definition or (a b : value) : value := if truthy a then a else b.

(** A plain object: its own properties; its prototype is
    [Object.prototype]. *)
Definition object := list (string * value).

Fixpoint own (o : object) (key : string) : option value :=
  match o with
  | [] => None
  | (k, v) :: o' => if String.eqb k key then Some v else own o' key
  end.

Definition builtin_function (name : string) : value :=
  NonString true ("function " ++ name ++ "() { [native code] }").

(** The properties every plain object inherits. *)
Definition Object_prototype : object :=
  [ ("constructor", builtin_function "Object");
    ("__defineGetter__", builtin_function "__defineGetter__");
    ("__defineSetter__", builtin_function "__defineSetter__");
    ("hasOwnProperty", builtin_function "hasOwnProperty");
    ("__lookupGetter__", builtin_function "__lookupGetter__");
    ("__lookupSetter__", builtin_function "__lookupSetter__");
    ("isPrototypeOf", builtin_function "isPrototypeOf");
    ("propertyIsEnumerable", builtin_function "propertyIsEnumerable");
    ("toString", builtin_function "toString");
    ("valueOf", builtin_function "valueOf");
    ("__proto__", NonString true "[object Object]");
    ("toLocaleString", builtin_function "toLocaleString") ].

(** [o[key]]: an own property, else an inherited one, else
    [undefined]. *)
Definition get (o : object) (key : value) : value :=
  match own o (String_ key) with
  | Some v => v
  | None =>
      match own Object_prototype (String_ key) with
      | Some v => v
      | None => Undefined
      end
  end.

End JsValue.

(* ================================================================== *)
(** ** Score calculator ([parser.js], lines 168-218) *)
(* ================================================================== *)

Module Pair.
Import JsValue.
(** [{ your, correct }] *)
Record t : Type := mk { your : value; correct : value }.
End Pair.

Module Score.
(** The object [computeScore] returns. *)
Record t : Type := mk {
  correct : nat;
  wrong : nat;
  unattempted : nat;
  totalQuestions : nat;
  marksPerCorrect : float;
  negativePerWrong : float;
  totalMarks : float;
  accuracy : float
}.
End Score.

Module Scoring.
Import JsString JsNumber JsValue.
Local Open Scope float_scope.

(** [const map = { 1: "A", 2: "B", 3: "C", 4: "D" }; return map[num] || "--";] *)
Definition mapToLetter (num : value) : value :=
  let map : object :=
    [("1", Str "A"); ("2", Str "B"); ("3", Str "C"); ("4", Str "D")] in
  or (get map num) (Str "--").

Inductive outcome : Type := Correct | Wrong | Unattempted.

(** [String(v || "").trim().toUpperCase()] *)
Definition normalize (v : value) : string :=
  toUpperCase (trim (String_ (or v (Str "")))).

(** The body of the [forEach] callback: which counter is incremented. *)
Definition classify (p : Pair.t) : outcome :=
  let your := normalize (Pair.your p) in
  let correctOpt := normalize (Pair.correct p) in
  if negb (truthy (Str your)) || String.eqb your "--"
     || Regex.test Regex.rx_not_attempted your
  then Unattempted
  else if String.eqb your correctOpt then Correct
  else Wrong.

(** The three counters [correct], [wrong], [unattempted]. *)
Record counters : Type :=
  Counters { n_correct : nat; n_wrong : nat; n_unattempted : nat }.

Definition tally (c : counters) (p : Pair.t) : counters :=
  match classify p with
  | Unattempted => Counters (n_correct c) (n_wrong c) (S (n_unattempted c))
  | Correct => Counters (S (n_correct c)) (n_wrong c) (n_unattempted c)
  | Wrong => Counters (n_correct c) (S (n_wrong c)) (n_unattempted c)
  end.

(** [computeScore] with its three arguments given. *)
Definition computeScore (pairs : list Pair.t)
           (marksPerCorrect negativePerWrong : float) : Score.t :=
  let c := fold_left tally pairs (Counters 0 0 0) in
  let correct := n_correct c in
  let wrong := n_wrong c in
  let unattempted := n_unattempted c in
  let totalMarks :=
    of_nat correct * marksPerCorrect - of_nat wrong * negativePerWrong in
  let totalQuestions :=
    if Nat.eqb (correct + wrong + unattempted) 0 then List.length pairs
    else (correct + wrong + unattempted)%nat in
  let accuracy :=
    if Nat.eqb totalQuestions 0 then 0
    else (of_nat correct / Math_max 1 (of_nat (correct + wrong))) * 100 in
  {| Score.correct := correct;
     Score.wrong := wrong;
     Score.unattempted := unattempted;
     Score.totalQuestions := totalQuestions;
     Score.marksPerCorrect := marksPerCorrect;
     Score.negativePerWrong := negativePerWrong;
     Score.totalMarks := Math_round (totalMarks * 100) / 100;
     Score.accuracy := Math_round (accuracy * 100) / 100 |}.

(** [computeScore(pairs = [], marksPerCorrect = 1, negativePerWrong = 0.25)]:
    an argument that is absent takes its default. *)
Definition computeScore_call (pairs : option (list Pair.t))
           (marksPerCorrect negativePerWrong : option float) : Score.t :=
  computeScore
    (match pairs with Some l => l | None => [] end)
    (match marksPerCorrect with Some m => m | None => 1 end)
    (match negativePerWrong with Some m => m | None => 0.25 end).

End Scoring.

(* ================================================================== *)
(** ** The document tree and the cheerio queries the parser makes *)
(* ================================================================== *)

Module Dom.
Import JsString.

(** Text and elements; comments and processing instructions, which
    the queries of the parser never see, are left out. *)
Inductive node : Type :=
| Text (data : string)
| Element (name : string) (attribs : list (string * string))
          (children : list node).

(** What [load] returns: the nodes under the document root. *)
Definition document : Type := list node.

(** A node in its place: the siblings before and after it, in
    document order, and its parent ([None] under the root). *)
Inductive loc : Type :=
| Loc (before : list node) (self : node) (after : list node)
      (up : option loc).

(** A cheerio selection. *)
Definition selection : Type := list loc.

Definition self (l : loc) : node := match l with Loc _ n _ _ => n end.
Definition before (l : loc) : list node := match l with Loc b _ _ _ => b end.
Definition after (l : loc) : list node := match l with Loc _ _ a _ => a end.
Definition up (l : loc) : option loc := match l with Loc _ _ _ u => u end.

Definition children (n : node) : list node :=
  match n with Text _ => [] | Element _ _ ch => ch end.

Definition is_element (n : node) : bool :=
  match n with Text _ => false | Element _ _ _ => true end.

Definition has_tag (t : string) (n : node) : bool :=
  match n with Text _ => false | Element name _ _ => String.eqb name t end.

Fixpoint lookup (key : string) (l : list (string * string)) : option string :=
  match l with
  | [] => None
  | (k, v) :: l' => if String.eqb k key then Some v else lookup key l'
  end.

Definition attr (key : string) (n : node) : option string :=
  match n with Text _ => None | Element _ a _ => lookup key a end.

Definition hasClass (c : string) (n : node) : bool :=
  match attr "class" n with
  | Some v => existsb (String.eqb c) (tokens v)
  | None => false
  end.

(** The text of a node: the data of the text nodes under it. *)
Fixpoint textContent (n : node) : string :=
  match n with
  | Text d => d
  | Element _ _ ch =>
      (fix all (l : list node) : string :=
         match l with
         | [] => EmptyString
         | c :: rest => String.append (textContent c) (all rest)
         end) ch
  end.

(** [sel.text()]: the texts of the selected elements, one after the
    other. *)
Definition text (sel : selection) : string :=
  concat_all (map (fun l => textContent (self l)) sel).

(** [walk anc bef n aft up]: the node [n] and the nodes under it, in
    document order, each with the tags of its ancestors inside the
    walk (nearest first). *)
Fixpoint walk (anc : list string) (bef : list node) (n : node)
         (aft : list node) (u : option loc) : list (loc * list string) :=
  let me := Loc bef n aft u in
  (me, anc) ::
  match n with
  | Text _ => []
  | Element t _ ch =>
      (fix kids (b : list node) (l : list node) : list (loc * list string) :=
         match l with
         | [] => []
         | c :: rest =>
             walk (t :: anc) b c rest (Some me) ++ kids (b ++ [c]) rest
         end) [] ch
  end.

Fixpoint walk_all (anc : list string) (bef : list node) (l : list node)
         (u : option loc) : list (loc * list string) :=
  match l with
  | [] => []
  | c :: rest => walk anc bef c rest u ++ walk_all anc (bef ++ [c]) rest u
  end.

(** The elements under [l], with their ancestors below [l]. *)
Definition under (l : loc) : list (loc * list string) :=
  filter (fun x => is_element (self (fst x)))
         (walk_all [] [] (children (self l)) (Some l)).

(** [$(l).find(sel)] for a selector [sel] that tests the element
    alone. *)
Definition find (p : node -> bool) (l : loc) : selection :=
  filter (fun d => p (self d)) (map fst (under l)).

(** [$(l).find("tr td")]: the [td] elements under [l] that have a [tr]
    between them and [l]. *)
Definition find_tr_td (l : loc) : selection :=
  map fst
      (filter (fun x => has_tag "td" (self (fst x))
                        && existsb (String.eqb "tr") (snd x))
              (under l)).

(** [$(sel)] on the whole document. *)
Definition select (p : node -> bool) (d : document) : selection :=
  filter (fun l => is_element (self l) && p (self l))
         (map fst (walk_all [] [] d None)).

(** The element siblings that follow. *)
Fixpoint followers (bef : list node) (aft : list node) (u : option loc)
  : selection :=
  match aft with
  | [] => []
  | n :: rest =>
      (if is_element n then [Loc bef n rest u] else [])
        ++ followers (bef ++ [n]) rest u
  end.

(** [$(l).nextAll(sel)] *)
Definition nextAll (p : loc -> bool) (l : loc) : selection :=
  filter p (followers (before l ++ [self l]) (after l) (up l)).

(** [$(l).next(sel)]: the element sibling right after [l], if it
    matches. *)
Definition next (p : loc -> bool) (l : loc) : selection :=
  match followers (before l ++ [self l]) (after l) (up l) with
  | [] => []
  | n :: _ => if p n then [n] else []
  end.

(** [$(l).siblings()] *)
Definition siblings (l : loc) : selection :=
  filter (fun s => negb (Nat.eqb (List.length (before s))
                                 (List.length (before l))))
         (followers [] (before l ++ self l :: after l) (up l)).

(** [$(l).parent(sel)] *)
Definition parent (p : node -> bool) (l : loc) : selection :=
  match up l with
  | Some u => if p (self u) then [u] else []
  | None => []
  end.

(** [sel.first()], [sel.last()], [sel.eq(i)] *)
Definition first (sel : selection) : selection :=
  match sel with [] => [] | x :: _ => [x] end.

Definition last (sel : selection) : selection :=
  match rev sel with [] => [] | x :: _ => [x] end.

Definition eq_ (i : nat) (sel : selection) : selection :=
  match nth_error sel i with Some x => [x] | None => [] end.

(** [sel.find(q)] on a selection of at most one element. *)
Definition find_in (p : node -> bool) (sel : selection) : selection :=
  match sel with [] => [] | x :: _ => find p x end.

(** [a || b] on selections: a selection is an object, and an object is
    truthy whatever its length, so the right operand is never used. *)
Definition or_else (a b : selection) : selection := a.

(** The selectors of the parser. *)
Definition section_lbl (n : node) : bool := hasClass "section-lbl" n.
Definition span (n : node) : bool := has_tag "span" n.
Definition td (n : node) : bool := has_tag "td" n.
Definition tr (n : node) : bool := has_tag "tr" n.
Definition body (n : node) : bool := has_tag "body" n.
(** ["table.norm-tbl, table.questionRowTbl"] *)
Definition question_table (n : node) : bool :=
  has_tag "table" n && (hasClass "norm-tbl" n || hasClass "questionRowTbl" n).
(** ["table.menu-tbl"] *)
Definition menu_table (n : node) : bool :=
  has_tag "table" n && hasClass "menu-tbl" n.
(** ["tr:has(td.bold)"] *)
Definition tr_has_td_bold (l : loc) : bool :=
  has_tag "tr" (self l)
  && negb (Nat.eqb (List.length
                      (find (fun n => td n && hasClass "bold" n) l)) 0).
(** ['img[src*="tick.png"]'] *)
Definition tick_img (n : node) : bool :=
  has_tag "img" n
  && match attr "src" n with
     | Some v => includes v "tick.png"
     | None => false
     end.

End Dom.

(* ================================================================== *)
(** ** The parser ([parser.js], lines 9-166, and [computeSectionScores]) *)
(* ================================================================== *)

Module Parser.
Import JsString JsValue Dom Scoring.

(** [{ name, pairs }] *)
Record Section : Type := mkSection { name : string; pairs : list Pair.t }.

Inductive error : Type :=
| TypeError (message : string).

(** How a call ends. *)
Inductive completion (A : Type) : Type :=
| Return (a : A)
| Throw (e : error).
Arguments Return {A} a.
Arguments Throw {A} e.

(** [array.slice(i, j)] for [0 <= i <= j], and [array.slice(i)]. *)
Definition slice {A : Type} (l : list A) (i j : nat) : list A :=
  firstn (j - i) (skipn i l).
Definition slice_from {A : Type} (l : list A) (i : nat) : list A :=
  skipn i l.

(** *** Section discovery (lines 19-38) *)

(** What [currentSection] refers to: the section object at an index of
    [sections], or an object that is not in the array. *)
Inductive section_ref : Type :=
| InSections (i : nat)
| Detached (sec : Section).

(** The callback of [$(".section-lbl").each]: the name of the section
    a label opens, if it opens one. *)
Definition section_of_label (lblDiv : loc) : option string :=
  let lblSpans := find span lblDiv in
  if Nat.leb 2 (List.length lblSpans) then
    let sectionPrefix := trim (text (eq_ 0 lblSpans)) in
    let sectionName := trim (text (eq_ 1 lblSpans)) in
    if includes sectionPrefix "Section" && truthy (Str sectionName)
    then Some sectionName
    else None
  else None.

Definition open_section (st : list Section * option section_ref)
           (lblDiv : loc) : list Section * option section_ref :=
  match section_of_label lblDiv with
  | Some sectionName =>
      (fst st ++ [mkSection sectionName []],
       Some (InSections (List.length (fst st))))
  | None => st
  end.

Definition discover_sections (d : document)
  : list Section * option section_ref :=
  let st := fold_left open_section (select section_lbl d) ([], None) in
  if Nat.eqb (List.length (fst st)) 0
  then (fst st, Some (Detached (mkSection "Overall" [])))
  else st.

(** *** One question table (lines 42-121) *)

Definition is_question_cell (c : loc) : bool :=
  Regex.test Regex.rx_question (trim (textContent (self c))).

(** [$(tr).find("td").text().includes("Ans")] *)
Definition mentions_Ans (r : loc) : bool :=
  includes (text (find td r)) "Ans".

(** The rows pushed after [ansTr] by [for (let k = 1; k < 4; k++)]. *)
Fixpoint more_rows (k : nat) (currentTr : loc) : list loc :=
  match k with
  | O => []
  | S k' =>
      match next (fun l => tr (self l)) currentTr with
      | n :: _ => n :: more_rows k' n
      | [] => []
      end
  end.

(** [optTd.hasClass("rightAns") || optTd.find('img[src*="tick.png"]').length > 0] *)
Definition is_flagged (optTd : selection) : bool :=
  existsb (fun l => hasClass "rightAns" (self l)) optTd
  || negb (Nat.eqb (List.length (find_in tick_img optTd)) 0).

(** The callback of [optionRows.forEach]: [correctNum] after the row
    [optTr].  (The callback's [return false] does not end a [forEach]
    of an array: every row is visited.) *)
Definition read_option_row (correctNum : value) (optTr : loc) : value :=
  let optTd := eq_ 1 (find td optTr) in
  if is_flagged optTd
  then
    let optText := trim (text optTd) in
    match Regex.search Regex.rx_option_number None optText with
    | Some (_, _, caps) =>
        match Regex.capture 1 caps with
        | Some d => Str d
        | None => Undefined
        end
    | None => correctNum
    end
  else correctNum.

(** The chosen option read from the menu table (lines 105-113). *)
Definition read_chosen (menuTbl : selection) : value :=
  if negb (Nat.eqb (List.length menuTbl) 0) then
    let rows := find_in tr menuTbl in
    let chosenRow := last rows in
    let tds := find_in td chosenRow in
    if Nat.leb 2 (List.length tds)
       && includes (text (eq_ 0 tds)) "Chosen Option"
    then Str (trim (text (eq_ 1 tds)))
    else Null
  else Null.

Definition find_answer_row (qTr : loc) : selection :=
  let ansTr := filter mentions_Ans (next (fun l => tr (self l)) qTr) in
  if Nat.eqb (List.length ansTr) 0
  then first (filter mentions_Ans (nextAll tr_has_td_bold qTr))
  else ansTr.

(** The callback of [$("table.norm-tbl, table.questionRowTbl").each]:
    the pair the table yields, or [None] where the callback returns
    early. *)
Definition pair_of_table (tblElem : loc) : option Pair.t :=
  let qRows := filter is_question_cell (find_tr_td tblElem) in
  match first qRows with
  | [] => None
  | qTd :: _ =>
      match parent tr qTd with
      | [] => None
      | qTr :: _ =>
          match find_answer_row qTr with
          | [] => None
          | ansTr :: _ =>
              let optionRows := ansTr :: more_rows 3 ansTr in
              let correctNum := fold_left read_option_row optionRows Null in
              if negb (truthy correctNum) then None
              else
                let menuTbl :=
                  or_else (next (fun l => menu_table (self l)) tblElem)
                 (or_else (first (filter (fun l => menu_table (self l))
                                         (siblings tblElem)))
                          (match up tblElem with
                           | Some u => next (fun l => menu_table (self l)) u
                           | None => []
                           end)) in
                let chosenNum := read_chosen menuTbl in
                let yourOpt :=
                  if truthy chosenNum then mapToLetter chosenNum
                  else Str "--" in
                let correctOpt := mapToLetter correctNum in
                Some (Pair.mk yourOpt correctOpt)
          end
      end
  end.

(** *** The structural pass (lines 40-127) *)

Record state : Type := mkState {
  sections : list Section;
  currentSection : option section_ref;
  allPairs : list Pair.t
}.

(** [sec.pairs.push(pair)] on the section at index [i]. *)
Fixpoint push_at (i : nat) (pair : Pair.t) (l : list Section)
  : list Section :=
  match l, i with
  | [], _ => []
  | s :: l', O => mkSection (name s) (pairs s ++ [pair]) :: l'
  | s :: l', S i' => s :: push_at i' pair l'
  end.

Definition add_pair (st : state) (pair : Pair.t) : state :=
  match currentSection st with
  | Some (InSections i) =>
      mkState (push_at i pair (sections st)) (currentSection st)
              (allPairs st ++ [pair])
  | Some (Detached sec) =>
      mkState (sections st)
              (Some (Detached (mkSection (name sec) (pairs sec ++ [pair]))))
              (allPairs st ++ [pair])
  | None => mkState (sections st) None (allPairs st ++ [pair])
  end.

Definition visit_table (st : state) (tbl : loc) : state :=
  match pair_of_table tbl with
  | Some p => add_pair st p
  | None => st
  end.

Definition structural_pass (d : document) : state :=
  let found := discover_sections d in
  fold_left visit_table (select question_table d)
            (mkState (fst found) (snd found) []).

(** *** Distribution over the sections (lines 129-146) *)

(** The callback of [sections.forEach] with its variable [idx]. *)
Definition give_slice (all : list Pair.t) (pairsPerSection : nat)
           (acc : nat * list Section) (sec : Section) : nat * list Section :=
  let idx := fst acc in
  let endIdx := (idx + pairsPerSection)%nat in
  (endIdx, snd acc ++ [mkSection (name sec) (slice all idx endIdx)]).

(** [sections[sections.length - 1].pairs = f(sections[sections.length - 1].pairs)] *)
Definition update_last (f : list Pair.t -> list Pair.t) (l : list Section)
  : list Section :=
  match rev l with
  | [] => []
  | s :: before => rev before ++ [mkSection (name s) (f (pairs s))]
  end.

Definition distribute (secs : list Section) (all : list Pair.t)
  : completion (list Section) :=
  if Nat.ltb 1 (List.length secs) then
    let numSections := List.length secs in
    let pairsPerSection := Nat.div (List.length all) numSections in
    let r := fold_left (give_slice all pairsPerSection) secs (0, []) in
    let idx := fst r in
    Return (update_last (fun p => p ++ slice_from all idx) (snd r))
  else
    match secs with
    | [] => Throw (TypeError "Cannot set properties of undefined (setting 'pairs')")
    | s :: rest => Return (mkSection (name s) all :: rest)
    end.

(** *** The fallback (lines 148-158) *)

Definition capture_value (i : nat) (caps : Regex.captures) : value :=
  match Regex.capture i caps with Some s => Str s | None => Undefined end.

(** The pairs the [while] loop pushes, in order. *)
Definition fallback_pairs (d : document) : list Pair.t :=
  let bodyText := collapse_ws (text (select body d)) in
  map (fun m => Pair.mk (capture_value 1 m) (capture_value 2 m))
      (Regex.exec_all Regex.rx1 None bodyText 0).

(** Whether the condition of line 149 holds. *)
Definition no_pairs (secs : list Section) : bool :=
  Nat.eqb (List.length (flat_map pairs secs)) 0.

Definition fallback (d : document) (secs : list Section) : list Section :=
  if no_pairs secs
  then update_last (fun p => p ++ fallback_pairs d) secs
  else secs.

(** *** [parseAnswers] *)

(** [{ sections }] *)
Record ParseResult : Type := mkResult { result_sections : list Section }.

Definition parse_document (d : document) : completion ParseResult :=
  let st := structural_pass d in
  match distribute (sections st) (allPairs st) with
  | Throw e => Throw e
  | Return secs => Return (mkResult (fallback d secs))
  end.

Section WithLoad.
(** cheerio's [load]. *)
Variable load : string -> document.

Definition parseAnswers (html : value) : completion ParseResult :=
  match html with
  | Str s =>
      if negb (truthy html) then Return (mkResult [])
      else parse_document (load s)
  | _ => Return (mkResult [])
  end.
End WithLoad.

(** *** [computeSectionScores] *)

(** [{ name: sec.name, ...sc }] *)
Record SectionScore : Type :=
  mkSectionScore { section_name : string; score : Score.t }.

(** [{ sections: sectionResults, total: totalSc }] *)
Record SectionScores : Type :=
  mkScores { section_results : list SectionScore; total : Score.t }.

Definition computeSectionScores (secs : list Section) : SectionScores :=
  let sectionResults :=
    map (fun sec =>
           let sc := computeScore_call (Some (pairs sec)) None None in
           mkSectionScore (name sec) sc) secs in
  let allPairs := flat_map pairs secs in
  let totalSc := computeScore_call (Some allPairs) None None in
  mkScores sectionResults totalSc.

End Parser.

(* ================================================================== *)
(** ** Rank estimation ([server.js], lines 130-191) *)
(* ================================================================== *)

Module Server.
Import JsNumber.
Local Open Scope float_scope.

(** A stored document of the [Score] model ([models/Score.js]), with
    the fields the handler writes. *)
Record ScoreDoc : Type := mkDoc {
  sourceUrl : option string;
  totalMarks : float;
  totalQuestions : nat;
  correct : nat;
  wrong : nat;
  unattempted : nat;
  marksPerCorrect : float;
  negativePerWrong : float
}.

(** The store as the handler sees it: the state of the connection
    ([mongoose.connection.readyState], 1 when connected) and the
    documents of the collection. *)
Record Db : Type := mkDb { readyState : nat; docs : list ScoreDoc }.

(** [Score.countDocuments()] and
    [Score.countDocuments({ totalMarks: { $lt: v } })]. *)
Definition countDocuments (db : Db) : nat := List.length (docs db).
Definition countDocuments_lt (db : Db) (v : float) : nat :=
  List.length (filter (fun d => totalMarks d <? v) (docs db)).

(** Lines 133-152: the document handed to [new Score]. *)
Definition new_doc (url : option string) (total : Score.t)
           (marksPerCorrect negativePerWrong : float) : ScoreDoc :=
  mkDoc url (Score.totalMarks total) (Score.totalQuestions total)
        (Score.correct total) (Score.wrong total) (Score.unattempted total)
        marksPerCorrect negativePerWrong.

(** Lines 130-157: the new score is stored before the rank is
    estimated, when the store is connected and [save] is set.
    [accepts doc] tells whether [doc.save()] resolves: the store
    refuses a document that fails the validation of the schema (a
    [NaN] in a path of type [Number], for one), and then the [catch]
    of line 155 leaves [saved] at [null] and the collection as it was.
    The result is the store after the block and [!!saved]. *)
Definition save_score (accepts : ScoreDoc -> bool) (db : Db) (save : bool)
           (url : option string) (total : Score.t)
           (marksPerCorrect negativePerWrong : float) : Db * bool :=
  let doc := new_doc url total marksPerCorrect negativePerWrong in
  if Nat.eqb (readyState db) 1 && save
  then if accepts doc
       then (mkDb (readyState db) (docs db ++ [doc]), true)
       else (db, false)
  else (db, false).

(** The fields [percentile], [estimatedRank], [sampleSize] of the
    response; [None] is [null]. *)
Record Rank : Type := mkRank {
  percentile : option float;
  estimatedRank : option float;
  sampleSize : nat
}.

(** Lines 159-191, for the total [newTotal = scores.total.totalMarks]
    and [totalCandidates = Number(totalCandidates)]. *)
Definition estimateRank (db : Db) (newTotal totalCandidates : float) : Rank :=
  if Nat.eqb (readyState db) 1 then
    let sampleSize := countDocuments db in
    if Nat.ltb 0 sampleSize then
      let less := countDocuments_lt db newTotal in
      let percentile := (of_nat less / of_nat sampleSize) * 100 in
      let estimatedRank :=
        Math_max 1 (Math_round ((1 - percentile / 100) * totalCandidates)) in
      mkRank (Some (Math_round (percentile * 100) / 100))
             (Some estimatedRank) sampleSize
    else mkRank None None sampleSize
  else mkRank None None 0.

(** The handler from the scores on: store, then estimate.  The result
    is the store after the request, [!!saved] and the rank fields. *)
Definition rank_of_request (accepts : ScoreDoc -> bool) (db : Db)
           (save : bool) (url : option string)
           (total : Score.t) (marksPerCorrect negativePerWrong : float)
           (totalCandidates : float) : Db * bool * Rank :=
  let s := save_score accepts db save url total
                      marksPerCorrect negativePerWrong in
  (fst s, snd s,
   estimateRank (fst s) (Score.totalMarks total) totalCandidates).

End Server.

(* ================================================================== *)
(** ** Vocabulary of the statements *)
(* ================================================================== *)

Module Spec.
Import JsString JsNumber JsValue Scoring Dom Parser Server.
Local Open Scope float_scope.

Definition outcome_eqb (a b : outcome) : bool :=
  match a, b with
  | Correct, Correct | Wrong, Wrong | Unattempted, Unattempted => true
  | _, _ => false
  end.

(** How many pairs of a list fall in a class. *)
Definition count_outcome (o : outcome) (pairs : list Pair.t) : nat :=
  List.length (filter (fun p => outcome_eqb (classify p) o) pairs).

(** Every character of [s] is in the class [p]. *)
Fixpoint every (p : ascii -> bool) (s : string) : bool :=
  match s with
  | EmptyString => true
  | String c s' => p c && every p s'
  end.

(** The character before the rest once [n] has been read. *)
Fixpoint last_of (prev : option ascii) (n : string) : option ascii :=
  match n with
  | EmptyString => prev
  | String c n' => last_of (Some c) n'
  end.

(** [s] holds the words "not attempted": NOT and ATTEMPTED in any
    letter case, with any white space, or none, between them. *)
Definition says_not_attempted (s : string) : Prop :=
  exists pre n ws a post : string,
    s = (pre ++ n ++ ws ++ a ++ post)%string
    /\ toUpperCase n = "NOT"
    /\ every is_space ws = true
    /\ toUpperCase a = "ATTEMPTED".

(** The normalized chosen value stands for "no answer". *)
Definition no_answer (your : string) : Prop :=
  your = "" \/ your = "--" \/ Regex.test Regex.rx_not_attempted your = true.

Definition sum_nat (l : list nat) : nat := fold_right Nat.add O l.
Definition sum_float (l : list float) : float := fold_left PrimFloat.add l 0.

(** A pair of two strings. *)
Definition answered (your correct : string) : Pair.t :=
  Pair.mk (Str your) (Str correct).

(** Both fields of a pair coerced as [String(v || "")]. *)
Definition coerced (p : Pair.t) : Pair.t :=
  answered (String_ (or (Pair.your p) (Str "")))
           (String_ (or (Pair.correct p) (Str ""))).

(** The historical records a request can read: the documents of the
    collection, and none without a connection. *)
Definition corpus (db : Db) : list ScoreDoc :=
  if Nat.eqb (readyState db) 1 then docs db else [].



(** The table has a row that reads as a chosen option. *)
Definition has_chosen_row (tblElem : loc) : bool :=
  match read_chosen (next (fun l => menu_table (self l)) tblElem) with
  | Str _ => true
  | _ => false
  end.

(** What the loop of [distribute] builds: from index [i0] on, each
    section takes the next [q] pairs. *)
Fixpoint slices (all : list Pair.t) (q i0 : nat) (secs : list Section)
  : list Section :=
  match secs with
  | [] => []
  | s :: rest =>
      mkSection (name s) (slice all i0 (i0 + q))
                :: slices all q (i0 + q) rest
  end.

(** The even split in closed form: from index [i0] on, every section
    but the last takes the next [q] pairs and the last takes all that
    is left. *)
Fixpoint even_split (all : list Pair.t) (q i0 : nat) (secs : list Section)
  : list Section :=
  match secs with
  | [] => []
  | s :: rest =>
      match rest with
      | [] => [mkSection (name s) (slice_from all i0)]
      | _ :: _ =>
          mkSection (name s) (slice all i0 (i0 + q))
                    :: even_split all q (i0 + q) rest
      end
  end.

(** [d] is the decimal number, followed by a dot, that the text of the
    second cell of the row [optTr] starts with. *)
Definition leading_number (optTr : loc) (d : string) : Prop :=
  exists rest : string,
    trim (text (eq_ 1 (find td optTr))) = (d ++ "." ++ rest)%string
    /\ d <> "" /\ every is_digit d = true.

(** The sentence of claim C6 at one table: a pair it yields never has
    the sentinel as its correct answer, and has it as its chosen value
    only when the table has no chosen-option row. *)
Definition sentinel_only_without_chosen_row (tblElem : loc) : Prop :=
  forall p : Pair.t,
    pair_of_table tblElem = Some p ->
    Pair.correct p <> Str "--"
    /\ (Pair.your p = Str "--" -> has_chosen_row tblElem = false).

End Spec.

(** Documents and tables on which statements are evaluated. *)
Module Samples.
Import JsValue Dom Parser Server.
Local Open Scope float_scope.

Definition cell (class text : string) : node :=
  Element "td" [("class", class)] [Text text].
Definition row (cells : list node) : node := Element "tr" [] cells.

(** A question table: the row of the question, then the option rows. *)
Definition question (options : list node) : node :=
  Element "table" [("class", "questionRowTbl")]
          [Element "tbody" []
                   (row [cell "bold" "Q.1"; cell "bold" "Which one?"] :: options)].

(** Four option rows, the second one flagged; [shown] is the number
    written in the flagged cell. *)
Definition options (shown : string) : list node :=
  [ row [cell "bold" "Ans"; cell "wrngAns" "1. first"];
    row [cell "" ""; cell "rightAns" (shown ++ ". second")];
    row [cell "" ""; cell "wrngAns" "3. third"];
    row [cell "" ""; cell "wrngAns" "4. fourth"] ].

(** The menu table, whose last row holds the chosen option. *)
Definition menu (chosen : string) : node :=
  Element "table" [("class", "menu-tbl")]
          [Element "tbody" []
                   [ row [cell "" "Question ID :"; cell "bold" "630680"];
                     row [cell "" "Chosen Option :"; cell "bold" chosen] ]].

Definition label (name : string) : node :=
  Element "div" [("class", "section-lbl")]
          [ Element "span" [] [Text "Section : "];
            Element "span" [("class", "bold")] [Text name] ].

Definition page (content : list node) : document :=
  [Element "html" [] [Element "body" [] content]].

(** A question block in its place: inside a [div], followed by
    [siblings]. *)
Definition block_at (options : list node) (siblings : list node) : loc :=
  Loc [] (question options) siblings
      (Some (Loc [] (Element "div" [] (question options :: siblings)) [] None)).

(** A page without section labels and without questions. *)
Definition plain_page : document := page [Element "p" [] [Text "hello"]].

(** A page without section labels whose text holds an answer line. *)
Definition answer_line_page : document :=
  page [Element "p" [] [Text "Your Answer: B Correct Answer: C"]].

(** One labelled section and an answer line. *)
Definition labelled_answer_line_page : document :=
  page [label "Reasoning";
        Element "p" [] [Text "Your Answer: B Correct Answer: C"]].

(** One labelled section and the line of an unanswered question. *)
Definition labelled_unanswered_line_page : document :=
  page [label "Reasoning";
        Element "p" [] [Text "Your Answer: -- Correct Answer: A"]].

(** Two sections, three question blocks. *)
Definition two_section_page : document :=
  page [ label "Current Affairs";
         Element "div" [] [question (options "2"); menu "3"];
         label "Reasoning";
         Element "div" [] [question (options "2"); menu "--"];
         Element "div" [] [question (options "2"); menu "2"] ].

(** The flagged cell reads "5. second" and the chosen option "--". *)
Definition block_with_fifth_option : loc :=
  block_at (options "5") [menu "--"].

(** The chosen option reads "constructor". *)
Definition block_with_constructor : loc :=
  block_at (options "2") [menu "constructor"].

(** No menu table follows the question. *)
Definition block_without_menu : loc := block_at (options "2") [].

Definition stored (marks : float) : ScoreDoc :=
  mkDoc None marks 0 0 0 0 1 0.25.

End Samples.

(* ================================================================== *)
(** ** The handler of [POST /api/parse] ([server.js], lines 86-192) *)
(* ================================================================== *)

Module Handler.
Import JsString JsNumber JsValue Scoring Dom Parser Server.
Local Open Scope float_scope.

(** The fields the handler reads from the body of the request.  A field
    that is absent is [Undefined]; for the three numbers it is [None],
    and a field that is present is given by what [Number] makes of it,
    [NaN] for a field that holds no number. *)
Record Request : Type := mkRequest {
  url : value;
  html : value;
  marksPerCorrect : option float;
  negativePerWrong : option float;
  save : value;
  totalCandidates : option float
}.

(** How a call to an external collaborator ends. *)
Inductive attempt (A : Type) : Type :=
| Done (a : A)
| Failed (message : string).
Arguments Done {A} a.
Arguments Failed {A} message.

(** The body of the answer with status 200.  [body_percentile] and
    [body_estimatedRank] are given as the client reads them, [None]
    for [null]; the numbers of [body_total] and [body_sections] are
    given as [computeScore] returns them. *)
Record Body : Type := mkBody {
  parsedCount : nat;
  pairsSample : list Pair.t;
  body_sections : list SectionScore;
  body_total : Score.t;
  dbSaved : bool;
  body_percentile : option float;
  body_estimatedRank : option float;
  body_sampleSize : nat
}.

(** A number as [res.json] writes it: [JSON.stringify] turns [NaN] and
    the infinities into [null], and [-0] into [0]. *)
Definition JSON_number (x : float) : option float :=
  if PrimFloat.is_nan x || PrimFloat.is_infinity x then None
  else if PrimFloat.is_zero x then Some 0
  else Some x.

Definition JSON_nullable (x : option float) : option float :=
  match x with
  | Some v => JSON_number v
  | None => None
  end.

(** What the client gets: an answer with status 400, 500, 422 or 200,
    or no answer when the handler throws. *)
Inductive response : Type :=
| BadRequest
| FetchFailed (detail : string)
| NoPairs
| Success (body : Body)
| Thrown (e : error).

(** The request with another marking scheme. *)
Definition with_scheme (req : Request) (m n : option float) : Request :=
  mkRequest (url req) (html req) m n (save req) (totalCandidates req).

Section WithCollaborators.
(** cheerio's [load]; [new URL(url).hostname]; [fetchUrl], that is the
    [data] of the answer to [axios.get]; whether [doc.save()] resolves
    for a document; the list [TRUSTED_HOSTS]. *)
Variable load : string -> document.
Variable hostname_of : value -> attempt string.
Variable fetchUrl : value -> attempt value.
Variable accepts : ScoreDoc -> bool.
Variable TRUSTED_HOSTS : list string.

(** Lines 101-116: the warnings written and the page fetched. *)
Definition fetch_page (url : value) : list string * attempt value :=
  match hostname_of url with
  | Failed m => ([], Failed m)
  | Done hostname =>
      let warnings :=
        if negb (existsb (String.eqb hostname) TRUSTED_HOSTS)
           && negb (match TRUSTED_HOSTS with
                    | h :: _ => String.eqb h "*"
                    | [] => false
                    end)
        then [String.append "Fetching from untrusted host: " hostname]
        else [] in
      (warnings, fetchUrl url)
  end.

(** The handler: the store after the request, the warnings written and
    the answer.  [marksPerCorrect], [negativePerWrong] and
    [totalCandidates] of the request are the numbers that [Number]
    makes of the fields, [NaN] for a field that is no number. *)
Definition parse_handler (db : Db) (req : Request)
  : Db * list string * response :=
  let marksPerCorrect :=
    match marksPerCorrect req with Some m => m | None => 1 end in
  let negativePerWrong :=
    match negativePerWrong req with Some m => m | None => 0.25 end in
  let save := match save req with Undefined => true | v => truthy v end in
  let totalCandidates :=
    match totalCandidates req with Some m => m | None => 300000 end in
  if negb (truthy (url req)) && negb (truthy (html req))
  then (db, [], BadRequest)
  else
    let fetched :=
      if truthy (url req) then fetch_page (url req)
      else ([], Done (or (html req) (Str ""))) in
    match snd fetched with
    | Failed m => (db, fst fetched, FetchFailed m)
    | Done pageHtml =>
        match parseAnswers load pageHtml with
        | Throw e => (db, fst fetched, Thrown e)
        | Return parsedData =>
            let sections := result_sections parsedData in
            if Nat.eqb (List.length sections) 0
               || forallb (fun s => Nat.eqb (List.length (pairs s)) 0) sections
            then (db, fst fetched, NoPairs)
            else
              let scores := computeSectionScores sections in
              let r :=
                rank_of_request
                  accepts db save
                  (if truthy (url req) then Some (String_ (url req)) else None)
                  (total scores) marksPerCorrect negativePerWrong
                  totalCandidates in
              (fst (fst r), fst fetched,
               Success
                 (mkBody (List.length (flat_map pairs sections))
                         (slice (flat_map pairs sections) 0 200)
                         (section_results scores)
                         (total scores)
                         (snd (fst r))
                         (JSON_nullable (percentile (snd r)))
                         (JSON_nullable (estimatedRank (snd r)))
                         (sampleSize (snd r))))
        end
    end.
End WithCollaborators.

End Handler.

(** Vocabulary of the further statements. *)
Module Shapes.
Import JsString JsValue Scoring Dom Parser.

(** A pair with both fields in the form [computeScore] compares. *)
Definition normal_form (p : Pair.t) : Pair.t :=
  Pair.mk (Str (normalize (Pair.your p))) (Str (normalize (Pair.correct p))).

(** The names of the sections that the labels open, in order. *)
Definition opened_names (labels : list loc) : list string :=
  flat_map (fun l => match section_of_label l with
                     | Some n => [n]
                     | None => []
                     end) labels.

(** The pairs that the question tables of a document yield, in the
    order of the tables. *)
Definition table_pairs (d : document) : list Pair.t :=
  flat_map (fun t => match pair_of_table t with
                     | Some p => [p]
                     | None => []
                     end) (select question_table d).

(** The row sets [correctNum]: it is flagged and its text starts with a
    number and a dot. *)
Definition decides (optTr : loc) : bool :=
  is_flagged (eq_ 1 (find td optTr))
  && match Regex.search Regex.rx_option_number None
                        (trim (text (eq_ 1 (find td optTr)))) with
     | Some _ => true
     | None => false
     end.

(** A section without pairs. *)
Definition emptied (s : Section) : Section := mkSection (name s) [].

(** What capture 1 of the fallback pattern can hold: one letter A to D
    in either case, "--", or the words "not attempted" in any case. *)
Definition is_choice (y : string) : Prop :=
  (exists c : ascii, y = String c EmptyString /\ Regex.a_to_d c = true)
  \/ y = "--"
  \/ toUpperCase y = "NOT ATTEMPTED".

(** The pattern has no capturing group. *)
Fixpoint groupless (r : Regex.regex) : bool :=
  match r with
  | Regex.Seq r1 r2 | Regex.Alt r1 r2 => groupless r1 && groupless r2
  | Regex.Group _ _ => false
  | _ => true
  end.

End Shapes.

(* ================================================================== *)
(** ** [computeScore] on any field ([parser.js], lines 185-218) *)
(* ================================================================== *)

Module Fields.
Import JsString JsNumber JsValue Scoring Parser.
Local Open Scope float_scope.

(** What a field of a pair object can hold when [computeScore] is
    called from outside: a value that [String] converts, or an object
    whose conversion to a string throws (an object without [toString]
    and [valueOf], as [Object.create(null)], or one whose [toString]
    throws); such an object is truthy, so [|| ""] keeps it. *)
Inductive field : Type :=
| Plain (v : value)
| Unconvertible (thrown : error).

(** A pair object with any fields. *)
Record item : Type := mkItem { item_your : field; item_correct : field }.

(** One call of the callback of line 193: the conversion of [your]
    (line 194), the conversion of [correct] (line 197), then the
    counter. *)
Definition visit (c : counters) (p : item) : completion counters :=
  match item_your p with
  | Unconvertible e => Throw e
  | Plain your =>
      match item_correct p with
      | Unconvertible e => Throw e
      | Plain correct => Return (tally c (Pair.mk your correct))
      end
  end.

(** [pairs.forEach]: an exception of the callback ends the loop. *)
Fixpoint forEach (items : list item) (c : counters) : completion counters :=
  match items with
  | [] => Return c
  | p :: rest =>
      match visit c p with
      | Throw e => Throw e
      | Return c' => forEach rest c'
      end
  end.

(** Lines 204-217: the summary from the counters and [pairs.length]. *)
Definition summarize (c : counters) (length : nat)
           (marksPerCorrect negativePerWrong : float) : Score.t :=
  let correct := n_correct c in
  let wrong := n_wrong c in
  let unattempted := n_unattempted c in
  let totalMarks :=
    of_nat correct * marksPerCorrect - of_nat wrong * negativePerWrong in
  let totalQuestions :=
    if Nat.eqb (correct + wrong + unattempted) 0 then length
    else (correct + wrong + unattempted)%nat in
  let accuracy :=
    if Nat.eqb totalQuestions 0 then 0
    else (of_nat correct / Math_max 1 (of_nat (correct + wrong))) * 100 in
  {| Score.correct := correct;
     Score.wrong := wrong;
     Score.unattempted := unattempted;
     Score.totalQuestions := totalQuestions;
     Score.marksPerCorrect := marksPerCorrect;
     Score.negativePerWrong := negativePerWrong;
     Score.totalMarks := Math_round (totalMarks * 100) / 100;
     Score.accuracy := Math_round (accuracy * 100) / 100 |}.

(** [computeScore] on pair objects with any fields. *)
Definition computeScore_items (items : list item)
           (marksPerCorrect negativePerWrong : float) : completion Score.t :=
  match forEach items (Counters 0 0 0) with
  | Throw e => Throw e
  | Return c =>
      Return (summarize c (List.length items) marksPerCorrect negativePerWrong)
  end.

(** A pair whose fields [String] converts, as a pair object. *)
Definition plain (p : Pair.t) : item :=
  mkItem (Plain (Pair.your p)) (Plain (Pair.correct p)).

(** Both fields of the pair object are values that [String] converts. *)
Definition convertible (p : item) : bool :=
  match item_your p, item_correct p with
  | Plain _, Plain _ => true
  | _, _ => false
  end.

(** What the callback throws on the pair object, if it throws. *)
Definition thrown_by (p : item) : option error :=
  match item_your p with
  | Unconvertible e => Some e
  | Plain _ =>
      match item_correct p with
      | Unconvertible e => Some e
      | Plain _ => None
      end
  end.

(** [Object.create(null)] as a field. *)
Definition null_prototype_object : field :=
  Unconvertible (TypeError "Cannot convert object to primitive value").

End Fields.

(* ================================================================== *)
(** ** The words of the statements about scores and answers *)
(* ================================================================== *)

(** Trimming, capital letters and the classes of a pair, written from
    the words of the description and not with the functions of the
    program, and what is compared of two answers. *)
Module Wording.
Import JsString JsNumber JsValue Scoring Parser Server Handler Spec Fields.
Local Open Scope string_scope.

(** ASCII text: every code unit is below 128.  On such text the string
    functions of the embedding are the built-ins of the language. *)
Definition is_ascii (c : ascii) : bool := Nat.ltb (nat_of_ascii c) 128.
Definition ascii_text (s : string) : bool := every is_ascii s.

(** The text of a field: nothing for a missing field, for [null] and
    for every other falsy value; the string itself; the conversion of
    any other value. *)
Definition text_of (v : value) : string :=
  match v with
  | Undefined | Null => ""
  | Str s => s
  | NonString true t => t
  | NonString false _ => ""
  end.

(** The pair of the texts of the two fields. *)
Definition texts (p : Pair.t) : Pair.t :=
  answered (text_of (Pair.your p)) (text_of (Pair.correct p)).

Definition ascii_pair (p : Pair.t) : bool :=
  ascii_text (text_of (Pair.your p)) && ascii_text (text_of (Pair.correct p)).

(** The white space of ASCII: space, tab, line feed, vertical tab, form
    feed, carriage return. *)
Definition white : list ascii :=
  [" "; "009"; "010"; "011"; "012"; "013"]%char.

Definition is_white (c : ascii) : bool := existsb (Ascii.eqb c) white.

Fixpoint drop_white (l : list ascii) : list ascii :=
  match l with
  | [] => []
  | c :: r => if is_white c then drop_white r else l
  end.

(** [s] without the white space at its two ends. *)
Definition strip (s : string) : string :=
  string_of_list_ascii
    (rev (drop_white (rev (drop_white (list_ascii_of_string s))))).

(** The capital of a small letter, and any other character itself. *)
Fixpoint capital_in (small capital : string) (c : ascii) : ascii :=
  match small, capital with
  | String a small', String b capital' =>
      if Ascii.eqb c a then b else capital_in small' capital' c
  | _, _ => c
  end.

Definition capital (c : ascii) : ascii :=
  capital_in "abcdefghijklmnopqrstuvwxyz" "ABCDEFGHIJKLMNOPQRSTUVWXYZ" c.

Fixpoint capitals (s : string) : string :=
  match s with
  | EmptyString => EmptyString
  | String c s' => String (capital c) (capitals s')
  end.

(** The normalized value of a field: its text, trimmed, in capitals. *)
Definition normal (v : value) : string := capitals (strip (text_of v)).

(** The pair of the normalized values of the two fields. *)
Definition normal_pair (p : Pair.t) : Pair.t :=
  answered (normal (Pair.your p)) (normal (Pair.correct p)).

(** [s] holds the words "not attempted" in any letter case, with any
    white space, or none, between them. *)
Definition words_not_attempted (s : string) : Prop :=
  exists pre n ws a post : string,
    s = (pre ++ n ++ ws ++ a ++ post)%string
    /\ capitals n = "NOT"
    /\ every is_white ws = true
    /\ capitals a = "ATTEMPTED".

(** The normalized chosen value stands for no answer: it is empty, the
    sentinel, or holds the words "not attempted". *)
Definition unanswered (your : string) : Prop :=
  your = "" \/ your = "--" \/ words_not_attempted your.

(** The sentence "[computeScore] returns a summary without throwing,
    whatever the fields of the pair objects hold". *)
Definition returns_on_all_fields : Prop :=
  forall (items : list item) (m n : float),
    exists r : Score.t, computeScore_items items m n = Return r.

(** An answer without the fields that depend on the store: [dbSaved],
    [percentile], [estimatedRank] and [sampleSize]. *)
Definition without_rank (r : response) : response :=
  match r with
  | Success b =>
      Success (mkBody (parsedCount b) (pairsSample b) (body_sections b)
                      (body_total b) false None None 0)
  | other => other
  end.

(** The store takes no notice of the marking scheme of a document. *)
Definition scheme_blind (accepts : ScoreDoc -> bool) : Prop :=
  forall (d : ScoreDoc) (m n : float),
    accepts (mkDoc (sourceUrl d) (totalMarks d) (totalQuestions d)
                   (Server.correct d) (Server.wrong d) (Server.unattempted d)
                   m n)
    = accepts d.

End Wording.

(** Further documents and rows on which statements are evaluated. *)
Module MoreSamples.
Import JsValue Dom Parser Server Samples.

(** A store that refuses a document with [NaN] in a path of type
    [Number] of the schema ([models/Score.js]), as the validation of
    [doc.save()] does, and takes any other document. *)
Definition refuses_NaN (d : ScoreDoc) : bool :=
  negb (PrimFloat.is_nan (totalMarks d))
  && negb (PrimFloat.is_nan (marksPerCorrect d))
  && negb (PrimFloat.is_nan (negativePerWrong d)).

(** An option row on its own, its second cell flagged, reading
    [shown]. *)
Definition flagged_row (shown : string) : loc :=
  Loc [] (row [cell "" ""; cell "rightAns" shown]) [] None.

(** An option row on its own that is not flagged. *)
Definition plain_row (shown : string) : loc :=
  Loc [] (row [cell "" ""; cell "wrngAns" shown]) [] None.

(** Three sections, two question blocks. *)
Definition three_section_page : document :=
  page [ label "Current Affairs"; label "Reasoning"; label "Maths";
         Element "div" [] [question (options "2"); menu "3"];
         Element "div" [] [question (options "2"); menu "2"] ].

(** One section, two question blocks. *)
Definition one_section_page : document :=
  page [ label "Reasoning";
         Element "div" [] [question (options "2"); menu "3"];
         Element "div" [] [question (options "2"); menu "2"] ].

End MoreSamples.

(* ================================================================== *)
(** * Properties *)
(* ================================================================== *)

Unset Implicit Arguments.

Module RegexFacts.
Import JsString Regex Spec.
Local Open Scope string_scope.

Section Star.
Variable A : Type.
Variable p : ascii -> bool.
Variable caps : captures.
Variable k : option ascii -> string -> captures -> option A.

Lemma star_greedy_nil (prev : option ascii) :
  rmatch (Star true p) prev "" caps k = k prev "" caps.
Proof. reflexivity. Qed.

Lemma star_greedy_cons (prev : option ascii) (c : ascii) (s : string) :
  rmatch (Star true p) prev (String c s) caps k
  = if p c
    then match rmatch (Star true p) (Some c) s caps k with
         | Some x => Some x
         | None => k prev (String c s) caps
         end
    else k prev (String c s) caps.
Proof. reflexivity. Qed.

(** A greedy star hands to its continuation a suffix of the input,
    after characters of its class. *)
Lemma star_greedy_sound (s : string) :
  forall (prev : option ascii) (x : A),
    rmatch (Star true p) prev s caps k = Some x ->
    exists (pre s' : string) (prev' : option ascii),
      s = pre ++ s' /\ every p pre = true /\ k prev' s' caps = Some x.
Proof.
  induction s as [|c s IH]; intros prev x H.
  - rewrite star_greedy_nil in H. exists "", "", prev. auto.
  - rewrite star_greedy_cons in H.
    destruct (p c) eqn:Pc.
    + destruct (rmatch (Star true p) (Some c) s caps k) as [y|] eqn:E.
      * injection H as ->.
        destruct (IH _ _ E) as (pre & s' & prev' & -> & Hp & Hk).
        exists (String c pre), s', prev'. simpl. rewrite Pc, Hp. auto.
      * exists "", (String c s), prev. auto.
    + exists "", (String c s), prev. auto.
Qed.
End Star.

Lemma length_append (a b : string) :
  String.length (a ++ b) = String.length a + String.length b.
Proof. induction a as [|c a IH]; simpl; [reflexivity | now rewrite IH]. Qed.

Lemma take_append (a b : string) : take (String.length a) (a ++ b) = a.
Proof.
  induction a as [|c a IH]; simpl; [destruct b; reflexivity | now rewrite IH].
Qed.

Lemma consumed_append (a b : string) : consumed (a ++ b) b = a.
Proof.
  unfold consumed. rewrite length_append.
  replace (String.length a + String.length b - String.length b)
    with (String.length a) by lia.
  apply take_append.
Qed.

Lemma option_number_unfold (c : ascii) (s : string) :
  match_at rx_option_number None (String c s)
  = if is_digit c
    then rmatch (Star true is_digit) (Some c) s []
                (fun prev' s' caps' =>
                   rmatch (chr ".") prev' s'
                          ((1, consumed (String c s) s') :: caps')
                          (fun prev'' s'' caps'' => Some (prev'', s'', caps'')))
    else None.
Proof. reflexivity. Qed.

(** A match of [/^(\d+)\./] at the start of [s]: [s] is a non-empty
    run of digits, a dot, and the rest, and the run is capture 1. *)
Lemma option_number_at (prev : option ascii) (s : string) (m : found) :
  match_at rx_option_number prev s = Some m ->
  prev = None
  /\ exists d : string,
      snd m = [(1, d)] /\ s = d ++ "." ++ snd (fst m)
      /\ d <> "" /\ every is_digit d = true.
Proof.
  destruct prev as [c0|]; [discriminate|].
  destruct s as [|c s]; [discriminate|].
  rewrite option_number_unfold.
  destruct (is_digit c) eqn:Dc; [|discriminate].
  intro H. split; [reflexivity|].
  apply star_greedy_sound in H.
  destruct H as (pre & s' & prev' & -> & Hp & Hk).
  destruct s' as [|c' rest]; [discriminate|].
  unfold chr in Hk. cbn [rmatch] in Hk.
  destruct (Ascii.eqb "." c') eqn:Ec; [|discriminate].
  apply Ascii.eqb_eq in Ec. subst c'.
  injection Hk as <-. simpl fst; simpl snd.
  exists (String c pre). split.
  - change (String c (pre ++ String "." rest))
      with (String c pre ++ String "." rest).
    now rewrite consumed_append.
  - split; [reflexivity|]. split; [discriminate|].
    simpl. now rewrite Dc, Hp.
Qed.

Lemma option_number_not_later (s : string) :
  forall c : ascii, search rx_option_number (Some c) s = None.
Proof.
  induction s as [|c' s IH]; intro c; [reflexivity|].
  simpl. apply IH.
Qed.

Lemma option_number_search (s : string) (m : found) :
  search rx_option_number None s = Some m ->
  exists d : string,
    snd m = [(1, d)] /\ s = d ++ "." ++ snd (fst m)
    /\ d <> "" /\ every is_digit d = true.
Proof.
  intro H.
  assert (E : match_at rx_option_number None s = Some m).
  { destruct s as [|c s]; simpl in H.
    - destruct (match_at rx_option_number None "") eqn:E;
        [congruence | discriminate].
    - destruct (match_at rx_option_number None (String c s)) eqn:E;
        [congruence|].
      now rewrite option_number_not_later in H. }
  now apply option_number_at in E.
Qed.

(** *** Literals under the [i] flag *)

Lemma lit_i_sound (A : Type) (w : string) :
  forall (prev : option ascii) (s : string) (caps : captures)
         (k : option ascii -> string -> captures -> option A) (x : A),
    rmatch (lit_i w) prev s caps k = Some x ->
    exists n s' : string,
      s = n ++ s' /\ toUpperCase n = toUpperCase w
      /\ k (last_of prev n) s' caps = Some x.
Proof.
  induction w as [|c w IH]; intros prev s caps k x H.
  - exists "", s. auto.
  - cbn [lit_i rmatch chr_i] in H.
    destruct s as [|c' s]; [discriminate|].
    destruct (Ascii.eqb (upper_char c') (upper_char c)) eqn:E; [|discriminate].
    apply Ascii.eqb_eq in E.
    destruct (IH _ _ _ _ _ H) as (n & s' & -> & Hn & Hk).
    exists (String c' n), s'. simpl. rewrite E, Hn. auto.
Qed.

Lemma lit_i_complete (A : Type) (w : string) :
  forall (n : string) (prev : option ascii) (s' : string) (caps : captures)
         (k : option ascii -> string -> captures -> option A),
    toUpperCase n = toUpperCase w ->
    rmatch (lit_i w) prev (n ++ s') caps k = k (last_of prev n) s' caps.
Proof.
  induction w as [|c w IH]; intros n prev s' caps k H.
  - destruct n; [reflexivity | discriminate].
  - destruct n as [|c' n]; [discriminate|].
    simpl in H. injection H as Hc Hn.
    cbn [lit_i rmatch chr_i append]. rewrite Hc, Ascii.eqb_refl.
    cbn [last_of]. now apply IH.
Qed.

(** A greedy star succeeds as soon as its continuation succeeds after
    some run of characters of its class. *)
Lemma star_greedy_complete (A : Type) (p : ascii -> bool) (caps : captures)
      (k : option ascii -> string -> captures -> option A) (ws : string) :
  forall (prev : option ascii) (t : string),
    every p ws = true ->
    k (last_of prev ws) t caps <> None ->
    rmatch (Star true p) prev (ws ++ t) caps k <> None.
Proof.
  induction ws as [|c ws IH]; intros prev t Hp Hk.
  - cbn [append last_of] in *. destruct t as [|c t]; [exact Hk|].
    rewrite star_greedy_cons.
    destruct (p c); [|exact Hk].
    destruct (rmatch (Star true p) (Some c) t caps k); [discriminate | exact Hk].
  - simpl in Hp. apply andb_true_iff in Hp as [Hc Hws].
    cbn [append last_of] in *. rewrite star_greedy_cons, Hc.
    specialize (IH (Some c) t Hws Hk).
    destruct (rmatch (Star true p) (Some c) (ws ++ t) caps k);
      [discriminate | contradiction].
Qed.

Lemma search_sound (r : regex) (s : string) :
  forall (prev : option ascii) (m : found),
    search r prev s = Some m ->
    exists pre s1 : string,
      s = pre ++ s1 /\ match_at r (last_of prev pre) s1 = Some m.
Proof.
  induction s as [|c s IH]; intros prev m H; simpl in H.
  - exists "", "". cbn [last_of append].
    destruct (match_at r prev ""); [auto | discriminate].
  - destruct (match_at r prev (String c s)) eqn:E.
    + exists "", (String c s). split; [reflexivity|]. simpl. congruence.
    + destruct (IH _ _ H) as (pre & s1 & -> & Hm).
      exists (String c pre), s1. auto.
Qed.

Lemma search_complete (r : regex) (pre : string) :
  forall (prev : option ascii) (s1 : string),
    match_at r (last_of prev pre) s1 <> None ->
    search r prev (pre ++ s1) <> None.
Proof.
  induction pre as [|c pre IH]; intros prev s1 H.
  - simpl in *. destruct s1; simpl; destruct (match_at r prev _);
      congruence.
  - simpl. destruct (match_at r prev (String c (pre ++ s1)));
      [discriminate|]. now apply IH.
Qed.

Lemma rmatch_seq (A : Type) (r1 r2 : regex) (prev : option ascii)
      (s : string) (caps : captures)
      (k : option ascii -> string -> captures -> option A) :
  rmatch (Seq r1 r2) prev s caps k
  = rmatch r1 prev s caps
           (fun prev' s' caps' => rmatch r2 prev' s' caps' k).
Proof. reflexivity. Qed.

(** [/NOT\s*ATTEMPTED/i] finds a match exactly in the strings that hold
    the words "not attempted". *)
Lemma not_attempted_pattern (s : string) :
  test rx_not_attempted s = true <-> says_not_attempted s.
Proof.
  unfold test, says_not_attempted. split.
  - destruct (search rx_not_attempted None s) as [m|] eqn:E; [|discriminate].
    intros _. apply search_sound in E.
    destruct E as (pre & s1 & -> & Hm).
    unfold match_at, rx_not_attempted in Hm. rewrite rmatch_seq in Hm.
    apply lit_i_sound in Hm. destruct Hm as (n & s2 & -> & Hn & Hm).
    rewrite rmatch_seq in Hm.
    apply star_greedy_sound in Hm.
    destruct Hm as (ws & s3 & prev3 & -> & Hws & Hm).
    apply lit_i_sound in Hm. destruct Hm as (a & post & -> & Ha & _).
    exists pre, n, ws, a, post. auto.
  - intros (pre & n & ws & a & post & -> & Hn & Hws & Ha).
    assert (H : search rx_not_attempted None (pre ++ n ++ ws ++ a ++ post)
                <> None).
    { apply search_complete.
      unfold match_at, rx_not_attempted. rewrite rmatch_seq.
      rewrite lit_i_complete by exact Hn. rewrite rmatch_seq.
      apply star_greedy_complete; [exact Hws|].
      rewrite lit_i_complete by exact Ha. discriminate. }
    destruct (search rx_not_attempted None (pre ++ n ++ ws ++ a ++ post));
      [reflexivity | congruence].
Qed.

(** *** Every match of a pattern takes a suffix of the input *)

Lemma star_lazy_cons (A : Type) (p : ascii -> bool) (caps : captures)
      (k : option ascii -> string -> captures -> option A)
      (prev : option ascii) (s : string) :
  rmatch (Star false p) prev s caps k
  = match k prev s caps with
    | Some x => Some x
    | None =>
        match s with
        | String c s' =>
            if p c then rmatch (Star false p) (Some c) s' caps k else None
        | EmptyString => None
        end
    end.
Proof. destruct s; reflexivity. Qed.

Lemma rmatch_suffix (A : Type) (r : regex) :
  forall (prev : option ascii) (s : string) (caps : captures)
         (k : option ascii -> string -> captures -> option A) (x : A),
    rmatch r prev s caps k = Some x ->
    exists (prev' : option ascii) (s' : string) (caps' : captures),
      k prev' s' caps' = Some x /\ String.length s' <= String.length s.
Proof.
  induction r as [|p|r1 IH1 r2 IH2|r1 IH1 r2 IH2|g p|i r IH| | |];
    intros prev s caps k x H.
  - exists prev, s, caps. auto.
  - simpl in H. destruct s as [|c s]; [discriminate|].
    destruct (p c); [|discriminate].
    exists (Some c), s, caps. simpl. auto.
  - simpl in H. apply IH1 in H. destruct H as (p1 & s1 & c1 & H & L1).
    apply IH2 in H. destruct H as (p2 & s2 & c2 & H & L2).
    exists p2, s2, c2. split; [exact H | lia].
  - simpl in H. destruct (rmatch r1 prev s caps k) eqn:E.
    + injection H as ->. now apply IH1 in E.
    + now apply IH2 in H.
  - destruct g.
    + apply star_greedy_sound in H.
      destruct H as (pre & s' & prev' & -> & _ & H).
      exists prev', s', caps. split; [exact H|].
      rewrite length_append. lia.
    + revert prev H. induction s as [|c s IHs]; intros prev H;
        rewrite star_lazy_cons in H.
      * destruct (k prev "" caps) eqn:E; [|discriminate].
        injection H as ->. exists prev, "", caps. auto.
      * destruct (k prev (String c s) caps) eqn:E.
        { injection H as ->. exists prev, (String c s), caps. auto. }
        destruct (p c); [|discriminate].
        destruct (IHs _ H) as (p' & s' & c' & Hk & L).
        exists p', s', c'. split; [exact Hk | simpl; lia].
  - simpl in H. apply IH in H. destruct H as (p1 & s1 & c1 & H & L).
    exists p1, s1, ((i, consumed s s1) :: c1). auto.
  - simpl in H.
    destruct (xorb (word_opt prev) (word_opt (head s))); [|discriminate].
    exists prev, s, caps. auto.
  - simpl in H. destruct prev; [discriminate|]. exists None, s, caps. auto.
  - simpl in H. destruct s; [|discriminate]. exists prev, "", caps. auto.
Qed.

(** A match of [rx1] is never empty, so the loop over its matches
    always moves on. *)
Lemma rx1_consumes (prev : option ascii) (s : string) (m : found) :
  match_at rx1 prev s = Some m ->
  String.length (snd (fst m)) < String.length s.
Proof.
  unfold match_at, rx1. rewrite rmatch_seq. intro H.
  apply lit_i_sound in H. destruct H as (n & s' & -> & Hn & H).
  apply rmatch_suffix in H. destruct H as (p1 & s1 & c1 & H & L).
  injection H as <-. cbn [fst snd]. rewrite length_append.
  destruct n as [|c n]; [discriminate|]. simpl. lia.
Qed.

End RegexFacts.

Module ScoringFacts.
Import JsString JsNumber JsValue Scoring Parser Spec Fields Wording.

Lemma outcome_eqb_eq (a b : outcome) : outcome_eqb a b = true <-> a = b.
Proof. destruct a, b; simpl; split; congruence. Qed.

(** The loop of [computeScore] adds to each counter the number of
    pairs of its class. *)
Lemma tally_fold (pairs : list Pair.t) :
  forall c,
    fold_left tally pairs c =
    Counters (n_correct c + count_outcome Correct pairs)
             (n_wrong c + count_outcome Wrong pairs)
             (n_unattempted c + count_outcome Unattempted pairs).
Proof.
  induction pairs as [|p ps IH]; intros [a b u].
  - unfold count_outcome; simpl. now rewrite !Nat.add_0_r.
  - simpl fold_left. rewrite IH. unfold count_outcome, tally. simpl.
    destruct (classify p); simpl; f_equal; lia.
Qed.

(** Every pair falls in one class. *)
Lemma count_outcome_total (pairs : list Pair.t) :
  count_outcome Correct pairs + count_outcome Wrong pairs
  + count_outcome Unattempted pairs = List.length pairs.
Proof.
  unfold count_outcome.
  induction pairs as [|p ps IH]; simpl; [reflexivity|].
  destruct (classify p); simpl; lia.
Qed.

Lemma count_outcome_app (o : outcome) (l1 l2 : list Pair.t) :
  count_outcome o (l1 ++ l2) = count_outcome o l1 + count_outcome o l2.
Proof.
  unfold count_outcome. now rewrite filter_app, length_app.
Qed.

Lemma computeScore_counts (pairs : list Pair.t) (m n : float) :
  Score.correct (computeScore pairs m n) = count_outcome Correct pairs
  /\ Score.wrong (computeScore pairs m n) = count_outcome Wrong pairs
  /\ Score.unattempted (computeScore pairs m n)
     = count_outcome Unattempted pairs.
Proof.
  unfold computeScore. rewrite tally_fold. simpl. auto.
Qed.

(** [totalQuestions] is the length of the list: the fallback to
    [pairs.length] never changes the value. *)
Lemma computeScore_totalQuestions (pairs : list Pair.t) (m n : float) :
  Score.totalQuestions (computeScore pairs m n) = List.length pairs.
Proof.
  unfold computeScore. rewrite tally_fold. simpl.
  pose proof (count_outcome_total pairs) as H. rewrite H.
  destruct (Nat.eqb (List.length pairs) 0); reflexivity.
Qed.

Lemma string_eqb_eq (a b : string) : String.eqb a b = true <-> a = b.
Proof. apply String.eqb_eq. Qed.

(** The condition of the first branch of the callback. *)
Lemma no_answer_test (y : string) :
  negb (truthy (Str y)) || String.eqb y "--"
  || Regex.test Regex.rx_not_attempted y = true <-> no_answer y.
Proof.
  unfold no_answer. simpl truthy. rewrite negb_involutive.
  rewrite !orb_true_iff, !String.eqb_eq. tauto.
Qed.

Lemma classify_unattempted (p : Pair.t) :
  classify p = Unattempted <-> no_answer (normalize (Pair.your p)).
Proof.
  rewrite <- no_answer_test. unfold classify.
  destruct (negb (truthy (Str (normalize (Pair.your p))))
            || String.eqb (normalize (Pair.your p)) "--"
            || Regex.test Regex.rx_not_attempted (normalize (Pair.your p))).
  - tauto.
  - destruct (String.eqb (normalize (Pair.your p))
                         (normalize (Pair.correct p)));
      split; intro H; discriminate.
Qed.

Lemma classify_correct (p : Pair.t) :
  classify p = Correct <->
  ~ no_answer (normalize (Pair.your p))
  /\ normalize (Pair.your p) = normalize (Pair.correct p).
Proof.
  rewrite <- no_answer_test, <- String.eqb_eq. unfold classify.
  destruct (negb (truthy (Str (normalize (Pair.your p))))
            || String.eqb (normalize (Pair.your p)) "--"
            || Regex.test Regex.rx_not_attempted (normalize (Pair.your p))).
  - split; [discriminate | intros [H _]; now elim H].
  - destruct (String.eqb (normalize (Pair.your p))
                         (normalize (Pair.correct p))).
    + split; [intros _; split; [discriminate | reflexivity] | reflexivity].
    + split; [discriminate | intros [_ H]; discriminate].
Qed.

Lemma classify_wrong (p : Pair.t) :
  classify p = Wrong <->
  ~ no_answer (normalize (Pair.your p))
  /\ normalize (Pair.your p) <> normalize (Pair.correct p).
Proof.
  rewrite <- no_answer_test. unfold classify.
  destruct (negb (truthy (Str (normalize (Pair.your p))))
            || String.eqb (normalize (Pair.your p)) "--"
            || Regex.test Regex.rx_not_attempted (normalize (Pair.your p))).
  - split; [discriminate | intros [H _]; now elim H].
  - destruct (String.eqb (normalize (Pair.your p))
                         (normalize (Pair.correct p))) eqn:E.
    + apply String.eqb_eq in E.
      split; [discriminate | intros [_ H]; now elim H].
    + apply String.eqb_neq in E.
      split; [intros _; split; [discriminate | exact E] | reflexivity].
Qed.

(** *** The functions of the program and the words of the description *)

Lemma space_white (c : ascii) : is_space c = is_white c.
Proof. destruct c as [[] [] [] [] [] [] [] []]; reflexivity. Qed.

Lemma upper_capital (c : ascii) : upper_char c = capital c.
Proof. destruct c as [[] [] [] [] [] [] [] []]; reflexivity. Qed.

Lemma toUpperCase_capitals (s : string) : toUpperCase s = capitals s.
Proof.
  induction s as [|c s IH]; [reflexivity|].
  cbn [toUpperCase capitals]. now rewrite upper_capital, IH.
Qed.

Lemma every_space_white (s : string) : every is_space s = every is_white s.
Proof.
  induction s as [|c s IH]; [reflexivity|].
  cbn [every]. now rewrite space_white, IH.
Qed.

Lemma trimStart_list (s : string) :
  list_ascii_of_string (trimStart s) = drop_white (list_ascii_of_string s).
Proof.
  induction s as [|c s IH]; [reflexivity|].
  cbn [trimStart list_ascii_of_string drop_white]. rewrite space_white.
  destruct (is_white c); [exact IH | reflexivity].
Qed.

Lemma drop_white_snoc (m : list ascii) (c : ascii) :
  drop_white (m ++ [c])
  = match drop_white m with
    | [] => if is_white c then [] else [c]
    | t => t ++ [c]
    end.
Proof.
  induction m as [|a m IH]; [reflexivity|].
  cbn [app drop_white]. destruct (is_white a); [exact IH | reflexivity].
Qed.

Lemma trimEnd_list (s : string) :
  list_ascii_of_string (trimEnd s)
  = rev (drop_white (rev (list_ascii_of_string s))).
Proof.
  induction s as [|c s IH]; [reflexivity|].
  cbn [trimEnd list_ascii_of_string rev]. rewrite drop_white_snoc.
  destruct (drop_white (rev (list_ascii_of_string s))) as [|x t].
  - destruct (trimEnd s); [|discriminate IH].
    rewrite space_white. destruct (is_white c); reflexivity.
  - rewrite rev_app_distr.
    change (rev [c] ++ rev (x :: t)) with (c :: rev (x :: t)).
    rewrite <- IH.
    destruct (trimEnd s) as [|y u]; [|reflexivity].
    exfalso. cbn [list_ascii_of_string rev] in IH.
    destruct (rev t); discriminate IH.
Qed.

(** [trim] removes the white space at the two ends. *)
Lemma trim_strip (s : string) : trim s = strip s.
Proof.
  unfold trim, strip.
  rewrite <- trimStart_list, <- trimEnd_list.
  now rewrite string_of_list_ascii_of_string.
Qed.

(** [String(v || "")] is the text of the field. *)
Lemma coerce_text (v : value) : String_ (or v (Str "")) = text_of v.
Proof.
  destruct v as [| |t|[] t]; try reflexivity.
  unfold or. cbn [truthy]. destruct (String.eqb t "") eqn:E; [|reflexivity].
  apply String.eqb_eq in E. subst t. reflexivity.
Qed.

Lemma normalize_normal (v : value) : normalize v = normal v.
Proof.
  unfold normalize, normal.
  now rewrite coerce_text, trim_strip, toUpperCase_capitals.
Qed.

Lemma says_words (s : string) : says_not_attempted s <-> words_not_attempted s.
Proof.
  unfold says_not_attempted, words_not_attempted.
  split; intros (pre & n & ws & a & post & E & Hn & Hw & Ha);
    exists pre, n, ws, a, post; repeat split; try assumption.
  - now rewrite <- toUpperCase_capitals.
  - now rewrite <- every_space_white.
  - now rewrite <- toUpperCase_capitals.
  - now rewrite toUpperCase_capitals.
  - now rewrite every_space_white.
  - now rewrite toUpperCase_capitals.
Qed.

Lemma no_answer_unanswered (y : string) : no_answer y <-> unanswered y.
Proof.
  unfold no_answer, unanswered.
  rewrite RegexFacts.not_attempted_pattern, says_words. tauto.
Qed.

(** The class of a pair in the words of the description. *)
Lemma classify_in_words (p : Pair.t) :
  (classify p = Unattempted <-> unanswered (normal (Pair.your p)))
  /\ (classify p = Correct <->
      ~ unanswered (normal (Pair.your p))
      /\ normal (Pair.your p) = normal (Pair.correct p))
  /\ (classify p = Wrong <->
      ~ unanswered (normal (Pair.your p))
      /\ normal (Pair.your p) <> normal (Pair.correct p)).
Proof.
  rewrite <- !normalize_normal, <- no_answer_unanswered.
  split; [apply classify_unattempted|].
  split; [apply classify_correct | apply classify_wrong].
Qed.

(** Claim C2, for pairs whose fields are ASCII text.  For every such
    list of pairs and every marking scheme, [computeScore] puts each
    pair in exactly one of the three classes after trimming the chosen
    value and putting it in capitals: unattempted iff the normalized
    chosen value is empty, is "--" or holds the words "not attempted"
    (with any white space, or none, between them; the letter case is
    gone with the capitals); otherwise correct iff it equals the
    normalized correct value; otherwise wrong.  Here the normalized
    value is written without the functions of the program: the text of
    the field, without the white space at its two ends, each small
    letter replaced by its capital.  The counters count the pairs of
    each class, [totalMarks] is
    [correct * marksPerCorrect - wrong * negativePerWrong] rounded by
    [Math.round(x * 100) / 100], [totalQuestions] is the sum of the
    three counters (which is always the length of the list, so the
    fallback to [pairs.length] never changes it), and [accuracy] is
    [correct / max(1, correct + wrong) * 100] rounded the same way,
    and 0 when there is no question.  On [{A,A}; {B,A}; {--,A}] with
    the default scheme the result is 1 correct, 1 wrong, 1
    unattempted, 0.75 marks and 50 percent accuracy.  Further results:
    padded and small letters are matched and "Not  Attempted" and a
    blank value are unattempted (2 correct, 1 wrong, 2 unattempted,
    1.75 marks, 66.67 percent); 0.125 marks are rounded up to 0.13 and
    -0.125 to -0.12; one correct answer of three gives 33.33 percent;
    a single unattempted pair gives the accuracy 0, the division being
    by [max(1, 0)]. *)
Theorem computeScore_classifies_and_totals :
  forall (pairs : list Pair.t) (marksPerCorrect negativePerWrong : float),
    Forall (fun p => ascii_pair p = true) pairs ->
    let r := computeScore pairs marksPerCorrect negativePerWrong in
    let c := count_outcome Correct pairs in
    let w := count_outcome Wrong pairs in
    let u := count_outcome Unattempted pairs in
    (forall p : Pair.t,
        In p pairs ->
        (classify p = Unattempted <-> unanswered (normal (Pair.your p)))
        /\ (classify p = Correct <->
            ~ unanswered (normal (Pair.your p))
            /\ normal (Pair.your p) = normal (Pair.correct p))
        /\ (classify p = Wrong <->
            ~ unanswered (normal (Pair.your p))
            /\ normal (Pair.your p) <> normal (Pair.correct p)))
    /\ Score.correct r = c /\ Score.wrong r = w /\ Score.unattempted r = u
    /\ (c + w + u)%nat = List.length pairs
    /\ Score.totalMarks r
       = round2 (of_nat c * marksPerCorrect - of_nat w * negativePerWrong)%float
    /\ Score.totalQuestions r = (c + w + u)%nat
    /\ Score.accuracy r
       = (if Nat.eqb (c + w + u) 0 then 0%float
          else round2 (of_nat c / Math_max 1 (of_nat (c + w)) * 100)%float)
    /\ Score.marksPerCorrect r = marksPerCorrect
    /\ Score.negativePerWrong r = negativePerWrong
    /\ computeScore_call
         (Some [answered "A" "A"; answered "B" "A"; answered "--" "A"])
         None None
       = Score.mk 1 1 1 3 1 0.25 0.75 50
    /\ computeScore_call
         (Some [answered " a " "A"; answered "b" " B";
                answered "Not  Attempted" "A"; answered "  " "A";
                answered "c" "D"])
         None None
       = Score.mk 2 1 2 5 1 0.25 1.75 (6667 / 100)
    /\ computeScore [answered "A" "A"] 0.125 0
       = Score.mk 1 0 0 1 0.125 0 (13 / 100) 100
    /\ computeScore [answered "B" "A"] 1 0.125
       = Score.mk 0 1 0 1 1 0.125 (-12 / 100) 0
    /\ computeScore [answered "A" "A"; answered "B" "A"; answered "C" "A"] 1 0
       = Score.mk 1 2 0 3 1 0 1 (3333 / 100)
    /\ computeScore [answered "--" "A"] 1 0.25
       = Score.mk 0 0 1 1 1 0.25 0 0.
Proof.
  intros pairs m n _ r c w u.
  pose proof (computeScore_counts pairs m n) as (Hc & Hw & Hu).
  pose proof (count_outcome_total pairs) as Hsum.
  pose proof (computeScore_totalQuestions pairs m n) as Htq.
  fold r in Hc, Hw, Hu, Htq. fold c in Hc, Hsum. fold w in Hw, Hsum.
  fold u in Hu, Hsum.
  split; [intros p _; apply classify_in_words|].
  do 4 (split; [assumption|]).
  split.
  { subst r. unfold computeScore. rewrite tally_fold. reflexivity. }
  split; [congruence|].
  split.
  { subst r. unfold computeScore. rewrite tally_fold. simpl.
    fold c w u. rewrite Hsum.
    destruct (List.length pairs) as [|k] eqn:E.
    + simpl. vm_compute. reflexivity.
    + simpl. reflexivity. }
  do 2 (split; [reflexivity|]).
  repeat split; vm_compute; reflexivity.
Qed.

(** Five pairs with padding, small letters and the words "not
    attempted", under the scheme 4 and 1: two are correct, one is
    wrong, two are unattempted, and the marks are 4 * 2 - 1 = 7. *)
Lemma computeScore_classifies_and_totals_padded :
  Score.correct
    (computeScore [answered " a " "A"; answered "b" " B";
                   answered "Not  Attempted" "A"; answered "  " "A";
                   answered "c" "D"] 4 1) = 2%nat
  /\ Score.wrong
       (computeScore [answered " a " "A"; answered "b" " B";
                      answered "Not  Attempted" "A"; answered "  " "A";
                      answered "c" "D"] 4 1) = 1%nat
  /\ Score.totalMarks
       (computeScore [answered " a " "A"; answered "b" " B";
                      answered "Not  Attempted" "A"; answered "  " "A";
                      answered "c" "D"] 4 1) = 7%float
  /\ normal (Str " a ") = normal (Str "A").
Proof.
  assert (A : Forall (fun p => ascii_pair p = true)
                     [answered " a " "A"; answered "b" " B";
                      answered "Not  Attempted" "A"; answered "  " "A";
                      answered "c" "D"]).
  { repeat constructor. }
  destruct (computeScore_classifies_and_totals _ 4%float 1%float A)
    as (Hclass & Hc & Hw & _ & _ & Hm & _).
  split; [rewrite Hc; reflexivity|].
  split; [rewrite Hw; reflexivity|].
  split; [rewrite Hm; vm_compute; reflexivity|].
  destruct (Hclass (answered " a " "A") (or_introl eq_refl)) as (_ & [K _] & _).
  assert (C : classify (answered " a " "A") = Correct)
    by (vm_compute; reflexivity).
  exact (proj2 (K C)).
Defined.

(** *** Coercion of the fields *)

Lemma normalize_coerce (v : value) :
  normalize (Str (String_ (or v (Str "")))) = normalize v.
Proof.
  unfold normalize. f_equal. f_equal.
  unfold or at 1. simpl truthy.
  destruct (String.eqb (String_ (or v (Str ""))) "") eqn:E; simpl.
  - apply String.eqb_eq in E. now rewrite E.
  - reflexivity.
Qed.

Lemma classify_coerced (p : Pair.t) : classify (coerced p) = classify p.
Proof.
  unfold classify, coerced, answered. simpl.
  now rewrite !normalize_coerce.
Qed.

Lemma normalize_falsy (v : value) : truthy v = false -> normalize v = "".
Proof.
  intro H. unfold normalize, or. rewrite H. reflexivity.
Qed.

Lemma classify_falsy_your (p : Pair.t) :
  truthy (Pair.your p) = false -> classify p = Unattempted.
Proof.
  intro H. apply classify_unattempted. left. now apply normalize_falsy.
Qed.

Lemma classify_texts (p : Pair.t) : classify (texts p) = classify p.
Proof.
  unfold texts. rewrite <- !coerce_text. apply classify_coerced.
Qed.

Lemma count_outcome_texts (o : outcome) (pairs : list Pair.t) :
  count_outcome o (map texts pairs) = count_outcome o pairs.
Proof.
  unfold count_outcome.
  induction pairs as [|p l IH]; [reflexivity|].
  cbn [map filter]. rewrite classify_texts.
  destruct (outcome_eqb (classify p) o); cbn [List.length]; now rewrite IH.
Qed.

Lemma count_outcome_falsy (pairs : list Pair.t) :
  Forall (fun p => truthy (Pair.your p) = false) pairs ->
  count_outcome Unattempted pairs = List.length pairs.
Proof.
  unfold count_outcome.
  induction 1 as [|p l H _ IH]; [reflexivity|].
  cbn [filter]. rewrite (classify_falsy_your _ H).
  cbn [outcome_eqb List.length]. now rewrite IH.
Qed.

(** *** Pair objects with any fields *)

Lemma forEach_plain (pairs : list Pair.t) :
  forall c, forEach (map plain pairs) c = Return (fold_left tally pairs c).
Proof.
  induction pairs as [|p l IH]; intro c; [reflexivity|].
  cbn [map forEach]. unfold visit, plain at 1.
  cbn [item_your item_correct]. destruct p as [y co]. apply IH.
Qed.

Lemma computeScore_items_plain (pairs : list Pair.t) (m n : float) :
  computeScore_items (map plain pairs) m n = Return (computeScore pairs m n).
Proof.
  unfold computeScore_items. rewrite forEach_plain, length_map. reflexivity.
Qed.

Lemma forEach_returns (items : list item) :
  forall c,
    (exists c', forEach items c = Return c')
    <-> forallb convertible items = true.
Proof.
  induction items as [|p l IH]; intro c.
  - split; [reflexivity | intros _; now exists c].
  - cbn [forEach forallb]. unfold visit, convertible.
    destruct (item_your p) as [y|e].
    + destruct (item_correct p) as [co|e].
      * cbn [andb]. apply IH.
      * split; [intros [c' H]; discriminate H | discriminate].
    + split; [intros [c' H]; discriminate H | discriminate].
Qed.

Lemma forEach_throws (pre : list item) (bad : item) (rest : list item)
      (e : error) :
  forallb convertible pre = true ->
  thrown_by bad = Some e ->
  forall c, forEach (pre ++ bad :: rest) c = Throw e.
Proof.
  intros Hpre Hbad.
  assert (some_inj : forall x y : error, Some x = Some y -> x = y)
    by (intros x y H; congruence).
  induction pre as [|p l IH]; intro c.
  - cbn [app forEach]. unfold visit. unfold thrown_by in Hbad.
    destruct (item_your bad) as [y|e'].
    + destruct (item_correct bad) as [co|e'']; [discriminate Hbad|].
      now rewrite (some_inj _ _ Hbad).
    + now rewrite (some_inj _ _ Hbad).
  - cbn [forallb] in Hpre. apply andb_true_iff in Hpre as [Hp Hl].
    cbn [app forEach]. unfold visit. unfold convertible in Hp.
    destruct (item_your p) as [y|e']; [|discriminate Hp].
    destruct (item_correct p) as [co|e']; [|discriminate Hp].
    now apply IH.
Qed.

(** Claim C10 as amended.  [computeScore] returns a summary for every
    list of pair objects whose fields are missing, [null], strings or
    any other value that [String] converts, and for no other list: a
    truthy field whose conversion to a string throws makes the call
    throw, with the exception of the first such field, [your] before
    [correct] in a pair.  When it returns, each field is read as
    [String(v || "")], that is, as its text: nothing for a missing
    field, for [null] and for every other falsy value, and the
    conversion of any other value; the class of a pair depends on the
    texts of its fields only, and the counters count the pairs of each
    class, one counter for every pair; a pair whose [your] field is
    missing, [null] or falsy in another way is unattempted, and a list
    of such pairs is unattempted throughout.  A call without arguments
    is [computeScore] on the empty list with the scheme 1 and 0.25.
    On seven pairs whose [your] fields are undefined, null, 0, 12, [],
    true and "a" against "A", null, "0", "12", "x", "TRUE" and
    undefined the result is 2 correct, 1 wrong and 4 unattempted. *)
Theorem computeScore_on_any_values :
  (forall (pairs : list Pair.t) (m n : float),
      computeScore_items (map plain pairs) m n
      = Return (computeScore pairs m n))
  /\ (forall (items : list item) (m n : float),
         (exists r : Score.t, computeScore_items items m n = Return r)
         <-> forallb convertible items = true)
  /\ (forall (pre : list item) (bad : item) (rest : list item) (e : error)
             (m n : float),
         forallb convertible pre = true ->
         thrown_by bad = Some e ->
         computeScore_items (pre ++ bad :: rest) m n = Throw e)
  /\ (forall v : value, String_ (or v (Str "")) = text_of v)
  /\ (forall p : Pair.t, classify p = classify (texts p))
  /\ (forall (pairs : list Pair.t) (m n : float),
         let r := computeScore pairs m n in
         Score.correct r = count_outcome Correct (map texts pairs)
         /\ Score.wrong r = count_outcome Wrong (map texts pairs)
         /\ Score.unattempted r = count_outcome Unattempted (map texts pairs)
         /\ (Score.correct r + Score.wrong r + Score.unattempted r)%nat
            = List.length pairs
         /\ Score.totalQuestions r = List.length pairs)
  /\ (forall p : Pair.t,
         truthy (Pair.your p) = false -> classify p = Unattempted)
  /\ (forall v : value,
         classify (Pair.mk Undefined v) = Unattempted
         /\ classify (Pair.mk Null v) = Unattempted)
  /\ (forall (pairs : list Pair.t) (m n : float),
         Forall (fun p => truthy (Pair.your p) = false) pairs ->
         Score.correct (computeScore pairs m n) = 0%nat
         /\ Score.wrong (computeScore pairs m n) = 0%nat
         /\ Score.unattempted (computeScore pairs m n) = List.length pairs)
  /\ computeScore_call None None None = computeScore [] 1 0.25
  /\ computeScore_call None None None = Score.mk 0 0 0 0 1 0.25 0 0
  /\ computeScore_call
       (Some [Pair.mk Undefined (Str "A");
              Pair.mk Null Null;
              Pair.mk (NonString false "0") (Str "0");
              Pair.mk (NonString true "12") (Str "12");
              Pair.mk (NonString true "") (Str "x");
              Pair.mk (NonString true "true") (Str "TRUE");
              Pair.mk (Str "a") Undefined])
       None None
     = Score.mk 2 1 4 7 1 0.25 1.75 (6667 / 100).
Proof.
  split; [exact computeScore_items_plain|].
  split.
  { intros items m n. rewrite <- (forEach_returns items (Counters 0 0 0)).
    unfold computeScore_items.
    destruct (forEach items (Counters 0 0 0)) as [c|e].
    - split; intros _; eexists; reflexivity.
    - split; intros [x H]; discriminate H. }
  split.
  { intros pre bad rest e m n Hpre Hbad. unfold computeScore_items.
    now rewrite (forEach_throws pre bad rest e Hpre Hbad). }
  split; [exact coerce_text|].
  split; [intro p; symmetry; apply classify_texts|].
  split.
  { intros pairs m n r.
    pose proof (computeScore_counts pairs m n) as (Hc & Hw & Hu).
    fold r in Hc, Hw, Hu. rewrite !count_outcome_texts, Hc, Hw, Hu.
    repeat split.
    - apply count_outcome_total.
    - apply computeScore_totalQuestions. }
  split; [exact classify_falsy_your|].
  split.
  { intro v. split; now apply classify_falsy_your. }
  split.
  { intros pairs m n H.
    pose proof (computeScore_counts pairs m n) as (Hc & Hw & Hu).
    pose proof (count_outcome_total pairs) as T.
    pose proof (count_outcome_falsy pairs H) as U.
    rewrite Hc, Hw, Hu. lia. }
  split; [reflexivity|].
  split; vm_compute; reflexivity.
Qed.

(** Claim C10 as it is written fails for a pair whose [your] field is
    [Object.create(null)]: the field is truthy, [String] cannot convert
    it, and [computeScore] throws a [TypeError] instead of returning a
    summary. *)
Lemma computeScore_throws_on_unconvertible_field :
  computeScore_items [mkItem null_prototype_object (Plain (Str "A"))] 1 0.25
  = Throw (TypeError "Cannot convert object to primitive value")
  /\ ~ returns_on_all_fields.
Proof.
  split; [reflexivity|].
  intro H.
  destruct (H [mkItem null_prototype_object (Plain (Str "A"))]
              1%float 0.25%float) as [r E].
  discriminate E.
Qed.

(** *** The option mapper *)

(** The numbers 1 to 4, and the strings that spell them, give A to D. *)
Lemma mapToLetter_letters (num : value) :
  (String_ num = "1" -> mapToLetter num = Str "A")
  /\ (String_ num = "2" -> mapToLetter num = Str "B")
  /\ (String_ num = "3" -> mapToLetter num = Str "C")
  /\ (String_ num = "4" -> mapToLetter num = Str "D").
Proof.
  unfold mapToLetter, get. repeat split; intros ->; reflexivity.
Qed.

Lemma mapToLetter_sentinel : mapToLetter (Str "--") = Str "--".
Proof. reflexivity. Qed.

(** A key that is neither an own property of the map nor a property
    of [Object.prototype] gives the sentinel. *)
Lemma mapToLetter_unknown (num : value) :
  own [("1", Str "A"); ("2", Str "B"); ("3", Str "C"); ("4", Str "D")]
      (String_ num) = None ->
  own Object_prototype (String_ num) = None ->
  mapToLetter num = Str "--".
Proof.
  intros H1 H2. unfold mapToLetter, get. rewrite H1, H2. reflexivity.
Qed.

(** Claim C9, at the input on which the code departs from it:
    ["constructor"] is not one of 1, 2, 3, 4, yet [mapToLetter] does
    not return the sentinel: [map["constructor"]] is the function
    [Object] that the map inherits from [Object.prototype], which is
    truthy, so [|| "--"] keeps it.  The same holds for each inherited
    property name. *)
Theorem mapToLetter_inherited_property :
  mapToLetter (Str "constructor") = builtin_function "Object"
  /\ mapToLetter (Str "constructor") <> Str "--"
  /\ Forall (fun key => mapToLetter (Str key) <> Str "--")
            (map fst Object_prototype).
Proof.
  split; [reflexivity|]. split; [discriminate|].
  repeat constructor; discriminate.
Qed.

End ScoringFacts.

Module ParserFacts.
Import JsString JsNumber JsValue Scoring Dom Parser Spec Samples ScoringFacts.

(** *** Section discovery and the structural pass *)

Lemma open_section_none (labels : list loc) :
  forall st,
    (forall l, In l labels -> section_of_label l = None) ->
    fold_left open_section labels st = st.
Proof.
  induction labels as [|l ls IH]; intros st H; simpl; [reflexivity|].
  unfold open_section at 2. rewrite (H l (or_introl eq_refl)).
  apply IH. intros l' Hl'. apply H. now right.
Qed.

(** Without a label that opens a section the array stays empty and
    [currentSection] is the object named "Overall", outside the
    array. *)
Lemma discover_without_marker (d : document) :
  (forall l, In l (select section_lbl d) -> section_of_label l = None) ->
  discover_sections d = ([], Some (Detached (mkSection "Overall" []))).
Proof.
  intro H. unfold discover_sections.
  rewrite (open_section_none _ _ H). reflexivity.
Qed.

Lemma push_at_length (p : Pair.t) (l : list Section) :
  forall i, List.length (push_at i p l) = List.length l.
Proof.
  induction l as [|s l IH]; intros [|i]; simpl; auto.
Qed.

Lemma push_at_names (p : Pair.t) (l : list Section) :
  forall i, map name (push_at i p l) = map name l.
Proof.
  induction l as [|s l IH]; intros [|i]; simpl; auto.
  now rewrite IH.
Qed.

Lemma add_pair_names (st : state) (p : Pair.t) :
  map name (sections (add_pair st p)) = map name (sections st).
Proof.
  unfold add_pair. destruct (currentSection st) as [[i|sec]|]; simpl; auto.
  apply push_at_names.
Qed.

(** The pass never adds a section to the array nor renames one. *)
Lemma visit_tables_names (tbls : list loc) :
  forall st,
    map name (sections (fold_left visit_table tbls st))
    = map name (sections st).
Proof.
  induction tbls as [|t ts IH]; intro st; simpl; [reflexivity|].
  rewrite IH. unfold visit_table.
  destruct (pair_of_table t); [apply add_pair_names | reflexivity].
Qed.

Lemma structural_pass_names (d : document) :
  map name (sections (structural_pass d))
  = map name (fst (discover_sections d)).
Proof. unfold structural_pass. now rewrite visit_tables_names. Qed.

Lemma add_pair_allPairs (st : state) (p : Pair.t) :
  allPairs (add_pair st p) = allPairs st ++ [p].
Proof.
  unfold add_pair. destruct (currentSection st) as [[i|sec]|]; reflexivity.
Qed.

(** What the pass collects: the pairs of the tables that yield one,
    in the order of the tables. *)
Lemma visit_tables_allPairs (tbls : list loc) :
  forall st,
    allPairs (fold_left visit_table tbls st)
    = allPairs st
      ++ flat_map (fun t => match pair_of_table t with
                            | Some p => [p]
                            | None => []
                            end) tbls.
Proof.
  induction tbls as [|t ts IH]; intro st; simpl.
  - now rewrite app_nil_r.
  - rewrite IH. unfold visit_table.
    destruct (pair_of_table t) as [p|]; simpl.
    + rewrite add_pair_allPairs, <- app_assoc. reflexivity.
    + reflexivity.
Qed.

Lemma map_name_nil (l : list Section) : map name l = [] -> l = [].
Proof. destruct l; [reflexivity | discriminate]. Qed.

(** *** The document without section markers *)

Lemma parse_document_without_marker (d : document) :
  (forall l, In l (select section_lbl d) -> section_of_label l = None) ->
  parse_document d
  = Throw (TypeError "Cannot set properties of undefined (setting 'pairs')").
Proof.
  intro H. unfold parse_document.
  pose proof (structural_pass_names d) as N.
  rewrite (discover_without_marker d H) in N. simpl in N.
  apply map_name_nil in N. rewrite N. reflexivity.
Qed.

(** Empty input and input that is not a string give a result without
    sections. *)
Lemma parseAnswers_not_html (load : string -> document) (html : value) :
  truthy html = false \/ (forall s, html <> Str s) ->
  parseAnswers load html = Return (mkResult []).
Proof.
  intros [H|H]; destruct html as [| |s|t x]; simpl in *; try reflexivity.
  - now rewrite H.
  - now elim (H s).
Qed.

(** Claim C1, on the inputs on which the code departs from it: for a
    non-empty string whose document has no label that opens a
    section, [parseAnswers] does not return.  [sections] is empty, so
    the assignment [sections[0].pairs = allPairs] of line 145 throws a
    [TypeError]; the pairs collected for the section named "Overall"
    are lost with it. *)
Theorem parseAnswers_throws_without_section_marker :
  forall (load : string -> document) (html : string),
    html <> "" ->
    (forall l, In l (select section_lbl (load html)) ->
               section_of_label l = None) ->
    parseAnswers load (Str html)
    = Throw (TypeError "Cannot set properties of undefined (setting 'pairs')").
Proof.
  intros load html Hne H. unfold parseAnswers. simpl truthy.
  destruct (String.eqb html "") eqn:E.
  - apply String.eqb_eq in E. contradiction.
  - simpl. now apply parse_document_without_marker.
Qed.

(** The page [<p>hello</p>] is such a document. *)
Lemma parseAnswers_throws_on_plain_page :
  "<html><body><p>hello</p></body></html>" <> ""
  /\ (forall l, In l (select section_lbl plain_page) ->
                section_of_label l = None)
  /\ parseAnswers (fun _ => plain_page)
                  (Str "<html><body><p>hello</p></body></html>")
     = Throw (TypeError "Cannot set properties of undefined (setting 'pairs')").
Proof.
  split; [discriminate|].
  split; [intros l H; simpl in H; contradiction|].
  apply (parseAnswers_throws_without_section_marker
           (fun _ => plain_page) "<html><body><p>hello</p></body></html>").
  - discriminate.
  - intros l H. simpl in H. contradiction.
Defined.

(** *** [computeSectionScores] *)

(** Claim C5.  For every list of sections the total that
    [computeSectionScores] returns is [computeScore] of the
    concatenation of the sections' pair lists, in the order of the
    sections, with the default scheme, and each section's entry is
    [computeScore] of that section's pairs.  The total is computed
    from the flattened list and is not the sum of the entries of the
    sections: for one section holding a correct pair and one holding a
    wrong pair, the accuracies of the sections are 100 and 0 and the
    accuracy of the total is 50. *)
Theorem computeSectionScores_total_from_flattened_pairs :
  (forall secs : list Section,
      total (computeSectionScores secs)
      = computeScore (flat_map pairs secs) 1 0.25
      /\ section_results (computeSectionScores secs)
         = map (fun sec => mkSectionScore (name sec)
                                          (computeScore (pairs sec) 1 0.25))
               secs)
  /\ (let secs := [mkSection "I" [answered "A" "A"];
                   mkSection "II" [answered "B" "A"]] in
      map (fun r => Score.accuracy (score r))
          (section_results (computeSectionScores secs)) = [100; 0]%float
      /\ Score.accuracy (total (computeSectionScores secs)) = 50%float
      /\ Score.accuracy (total (computeSectionScores secs))
         <> sum_float (map (fun r => Score.accuracy (score r))
                           (section_results (computeSectionScores secs)))).
Proof.
  split.
  - intro secs. split; reflexivity.
  - cbv zeta. split; [vm_compute; reflexivity|].
    split; [vm_compute; reflexivity|].
    vm_compute. intro H.
    assert (E : PrimFloat.eqb 50 100 = true) by (rewrite H at 1; reflexivity).
    vm_compute in E. discriminate.
Qed.

(** *** Distribution of the pairs over the sections *)

Lemma give_slice_fold (all : list Pair.t) (q : nat) (secs : list Section) :
  forall (i0 : nat) (acc : list Section),
    fold_left (give_slice all q) secs (i0, acc)
    = (i0 + q * List.length secs, acc ++ slices all q i0 secs).
Proof.
  induction secs as [|s r IH]; intros i0 acc; simpl.
  - now rewrite Nat.mul_0_r, Nat.add_0_r, app_nil_r.
  - unfold give_slice at 2. simpl fst; simpl snd. rewrite IH.
    f_equal; [lia|]. now rewrite <- app_assoc.
Qed.

Lemma update_last_cons (f : list Pair.t -> list Pair.t) (x y : Section)
      (l : list Section) :
  update_last f (x :: y :: l) = x :: update_last f (y :: l).
Proof.
  unfold update_last. simpl rev.
  destruct (rev l ++ [y]) as [|z m] eqn:E.
  - destruct (rev l); discriminate.
  - simpl. rewrite rev_app_distr. reflexivity.
Qed.

Lemma update_last_one (f : list Pair.t -> list Pair.t) (x : Section) :
  update_last f [x] = [mkSection (name x) (f (pairs x))].
Proof. reflexivity. Qed.

Lemma slice_then_rest (all : list Pair.t) (i q : nat) :
  slice all i (i + q) ++ slice_from all (i + q) = slice_from all i.
Proof.
  unfold slice, slice_from.
  replace (i + q - i) with q by lia.
  rewrite Nat.add_comm, <- skipn_skipn. apply firstn_skipn.
Qed.

(** The loop of lines 134-138 followed by the assignment of lines
    140-142 is the even split. *)
Lemma assemble_even_split (all : list Pair.t) (q : nat) (secs : list Section) :
  forall i0 : nat,
    secs <> [] ->
    update_last
      (fun p => p ++ slice_from all (i0 + q * List.length secs))
      (slices all q i0 secs)
    = even_split all q i0 secs.
Proof.
  induction secs as [|s r IH]; intros i0 Hne; [congruence|].
  destruct r as [|s2 r].
  - simpl. rewrite update_last_one. simpl.
    rewrite Nat.mul_1_r. now rewrite slice_then_rest.
  - specialize (IH (i0 + q) ltac:(discriminate)).
    change (even_split all q i0 (s :: s2 :: r))
      with (mkSection (name s) (slice all i0 (i0 + q))
                      :: even_split all q (i0 + q) (s2 :: r)).
    rewrite <- IH. clear IH.
    change (slices all q i0 (s :: s2 :: r))
      with (mkSection (name s) (slice all i0 (i0 + q))
              :: mkSection (name s2) (slice all (i0 + q) (i0 + q + q))
              :: slices all q (i0 + q + q) r).
    rewrite update_last_cons.
    replace (i0 + q * List.length (s :: s2 :: r))
      with (i0 + q + q * List.length (s2 :: r)) by (simpl; lia).
    reflexivity.
Qed.

Lemma distribute_even_split (secs : list Section) (all : list Pair.t) :
  1 < List.length secs ->
  distribute secs all
  = Return (even_split all (List.length all / List.length secs) 0 secs).
Proof.
  intro Hk. unfold distribute.
  apply Nat.ltb_lt in Hk as Hb. rewrite Hb.
  rewrite give_slice_fold. simpl fst; simpl snd. simpl app.
  f_equal. apply assemble_even_split. destruct secs; [inversion Hk | discriminate].
Qed.

Lemma even_split_names (all : list Pair.t) (q : nat) (secs : list Section) :
  forall i0, map name (even_split all q i0 secs) = map name secs.
Proof.
  induction secs as [|s r IH]; intro i0; [reflexivity|].
  destruct r as [|s2 r]; [reflexivity|].
  change (even_split all q i0 (s :: s2 :: r))
    with (mkSection (name s) (slice all i0 (i0 + q))
                    :: even_split all q (i0 + q) (s2 :: r)).
  rewrite map_cons, IH. reflexivity.
Qed.

Lemma even_split_flat (all : list Pair.t) (q : nat) (secs : list Section) :
  forall i0,
    secs <> [] ->
    flat_map pairs (even_split all q i0 secs) = slice_from all i0.
Proof.
  induction secs as [|s r IH]; intros i0 Hne; [congruence|].
  destruct r as [|s2 r].
  - simpl. apply app_nil_r.
  - change (even_split all q i0 (s :: s2 :: r))
      with (mkSection (name s) (slice all i0 (i0 + q))
                      :: even_split all q (i0 + q) (s2 :: r)).
    cbn [flat_map pairs]. rewrite IH by discriminate.
    apply slice_then_rest.
Qed.

Lemma even_split_nth (all : list Pair.t) (q : nat) (secs : list Section) :
  forall i0 i,
    i < List.length secs - 1 ->
    exists s, nth_error (even_split all q i0 secs) i = Some s
              /\ pairs s = slice all (i0 + i * q) (i0 + i * q + q).
Proof.
  induction secs as [|s r IH]; intros i0 i Hi; [simpl in Hi; lia|].
  destruct r as [|s2 r]; [simpl in Hi; lia|].
  change (even_split all q i0 (s :: s2 :: r))
    with (mkSection (name s) (slice all i0 (i0 + q))
                    :: even_split all q (i0 + q) (s2 :: r)).
  destruct i as [|i].
  - eexists. split; [reflexivity|]. simpl. now rewrite Nat.add_0_r.
  - destruct (IH (i0 + q) i) as (x & Hx & Hp).
    { simpl in Hi |- *. lia. }
    exists x. split; [exact Hx|]. rewrite Hp. f_equal; simpl; lia.
Qed.

Lemma even_split_last (all : list Pair.t) (q : nat) (secs : list Section) :
  forall i0,
    secs <> [] ->
    exists s, nth_error (even_split all q i0 secs) (List.length secs - 1)
              = Some s
              /\ pairs s
                 = slice_from all (i0 + (List.length secs - 1) * q).
Proof.
  induction secs as [|s r IH]; intros i0 Hne; [congruence|].
  destruct r as [|s2 r].
  - eexists. split; [reflexivity|]. simpl. now rewrite Nat.add_0_r.
  - change (even_split all q i0 (s :: s2 :: r))
      with (mkSection (name s) (slice all i0 (i0 + q))
                      :: even_split all q (i0 + q) (s2 :: r)).
    destruct (IH (i0 + q)) as (x & Hx & Hp); [discriminate|].
    exists x. split.
    + simpl List.length in Hx |- *. simpl Nat.sub in Hx |- *.
      rewrite Nat.sub_0_r in Hx. exact Hx.
    + rewrite Hp. f_equal. simpl. lia.
Qed.

Lemma slice_length (all : list Pair.t) (i q : nat) :
  i + q <= List.length all -> List.length (slice all i (i + q)) = q.
Proof.
  intro H. unfold slice. rewrite length_firstn, length_skipn. lia.
Qed.

Lemma flat_map_pairs_length (secs : list Section) :
  List.length (flat_map pairs secs)
  = sum_nat (map (fun s => List.length (pairs s)) secs).
Proof.
  induction secs as [|s r IH]; simpl; [reflexivity|].
  now rewrite length_app, IH.
Qed.

Lemma section_totalQuestions (secs : list Section) :
  map (fun r => Score.totalQuestions (score r))
      (section_results (computeSectionScores secs))
  = map (fun s => List.length (pairs s)) secs.
Proof.
  unfold computeSectionScores. cbn [section_results]. rewrite map_map.
  apply map_ext. intro s. cbn [score].
  unfold computeScore_call. apply computeScore_totalQuestions.
Qed.

Lemma fallback_when_pairs (d : document) (secs : list Section) :
  flat_map pairs secs <> [] -> fallback d secs = secs.
Proof.
  intro H. unfold fallback, no_pairs.
  destruct (flat_map pairs secs); [congruence | reflexivity].
Qed.

(** Claim C4.  When more than one section was discovered ([k > 1]) and
    the structural pass collected [n] pairs, one per question table that
    yields a pair, in the order of the tables, the distribution gives
    each of the first [k - 1] sections the next [floor(n / k)] pairs,
    in order, and the last section all the pairs from index
    [(k - 1) * floor(n / k)] on, that is [n - (k - 1) * floor(n / k)]
    pairs; the sections keep their names and order, their pair lists
    concatenated are the collected list, and so the pair counts of the
    sections, and their [totalQuestions] after scoring, add up to [n],
    which is also the [totalQuestions] of the total.  [parseAnswers]
    returns these sections after the fallback step, which leaves them
    as they are when [n] is not 0. *)
Theorem pairs_distributed_evenly :
  forall d : document,
    let st := structural_pass d in
    let k := List.length (sections st) in
    let n := List.length (allPairs st) in
    let q := n / k in
    1 < k ->
    exists out : list Section,
      allPairs st
      = flat_map (fun t => match pair_of_table t with
                           | Some p => [p]
                           | None => []
                           end) (select question_table d)
      /\ distribute (sections st) (allPairs st) = Return out
      /\ parse_document d = Return (mkResult (fallback d out))
      /\ (n <> 0 -> fallback d out = out)
      /\ map name out = map name (sections st)
      /\ (forall i, i < k - 1 ->
                    exists s, nth_error out i = Some s
                              /\ pairs s = slice (allPairs st) (i * q) (i * q + q)
                              /\ List.length (pairs s) = q)
      /\ (exists s, nth_error out (k - 1) = Some s
                    /\ pairs s = slice_from (allPairs st) ((k - 1) * q)
                    /\ List.length (pairs s) = n - (k - 1) * q)
      /\ flat_map pairs out = allPairs st
      /\ sum_nat (map (fun s => List.length (pairs s)) out) = n
      /\ sum_nat (map (fun r => Score.totalQuestions (score r))
                      (section_results (computeSectionScores out))) = n
      /\ Score.totalQuestions (total (computeSectionScores out)) = n.
Proof.
  intros d st k n q Hk.
  assert (Hne : sections st <> []).
  { intro E. subst k. rewrite E in Hk. simpl in Hk. lia. }
  assert (Hq : k * q <= n).
  { subst q. apply Nat.Div0.mul_div_le. }
  pose proof (distribute_even_split (sections st) (allPairs st) Hk) as Hd.
  fold k n q in Hd.
  exists (even_split (allPairs st) q 0 (sections st)).
  assert (Hflat : flat_map pairs (even_split (allPairs st) q 0 (sections st))
                  = allPairs st).
  { now rewrite even_split_flat. }
  split; [subst st; unfold structural_pass; now rewrite visit_tables_allPairs|].
  split; [exact Hd|].
  split; [unfold parse_document; fold st; now rewrite Hd|].
  split.
  { intro Hn. apply fallback_when_pairs. rewrite Hflat.
    intro E. apply Hn. subst n. now rewrite E. }
  split; [apply even_split_names|].
  split.
  { intros i Hi.
    destruct (even_split_nth (allPairs st) q (sections st) 0 i Hi)
      as (s & Hs & Hp).
    exists s. simpl in Hp. split; [exact Hs|]. split; [exact Hp|].
    rewrite Hp. apply slice_length. fold n. nia. }
  split.
  { destruct (even_split_last (allPairs st) q (sections st) 0 Hne)
      as (s & Hs & Hp).
    exists s. simpl in Hp. fold k in Hs, Hp.
    split; [exact Hs|]. split; [exact Hp|].
    rewrite Hp. unfold slice_from. rewrite length_skipn. reflexivity. }
  split; [exact Hflat|].
  assert (Hsum : sum_nat (map (fun s => List.length (pairs s))
                              (even_split (allPairs st) q 0 (sections st)))
                 = n).
  { rewrite <- flat_map_pairs_length, Hflat. reflexivity. }
  split; [exact Hsum|].
  split.
  - now rewrite section_totalQuestions.
  - unfold computeSectionScores. cbn [total]. unfold computeScore_call.
    rewrite computeScore_totalQuestions, Hflat. reflexivity.
Qed.

(** Two sections and three pairs: one pair, then two. *)
Lemma pairs_distributed_evenly_two_sections :
  1 < List.length (sections (structural_pass two_section_page))
  /\ exists out : list Section,
      distribute (sections (structural_pass two_section_page))
                 (allPairs (structural_pass two_section_page)) = Return out
      /\ map (fun s => List.length (pairs s)) out = [1; 2].
Proof.
  assert (H : 1 < List.length (sections (structural_pass two_section_page)))
    by (vm_compute; lia).
  split; [exact H|].
  destruct (pairs_distributed_evenly two_section_page H)
    as (out & _ & Hd & _).
  exists out. split; [exact Hd|].
  vm_compute in Hd. injection Hd as <-. reflexivity.
Defined.

End ParserFacts.

Module BlockFacts.
Import JsString JsNumber JsValue Scoring Dom Parser Spec Samples.
Import ScoringFacts RegexFacts.

(** *** The option mapper on decimal numbers *)

Lemma digit_differs (c k : ascii) :
  is_digit c = true -> is_digit k = false -> Ascii.eqb k c = false.
Proof.
  intros Hc Hk. destruct (Ascii.eqb k c) eqn:E; [|reflexivity].
  apply Ascii.eqb_eq in E. congruence.
Qed.

(** No property of [Object.prototype] has a name that starts with a
    digit. *)
Lemma own_prototype_digit (c : ascii) (s : string) :
  is_digit c = true -> own Object_prototype (String c s) = None.
Proof.
  intro Hc. unfold Object_prototype. cbn [own String.eqb].
  repeat (rewrite (digit_differs c _ Hc) by reflexivity; cbn [andb]).
  reflexivity.
Qed.

Lemma mapToLetter_number (d : string) :
  d <> "" -> every is_digit d = true ->
  (d = "1" /\ mapToLetter (Str d) = Str "A")
  \/ (d = "2" /\ mapToLetter (Str d) = Str "B")
  \/ (d = "3" /\ mapToLetter (Str d) = Str "C")
  \/ (d = "4" /\ mapToLetter (Str d) = Str "D")
  \/ (~ In d ["1"; "2"; "3"; "4"] /\ mapToLetter (Str d) = Str "--").
Proof.
  intros Hne Hd.
  destruct (string_dec d "1") as [->|N1]; [left; split; reflexivity|].
  destruct (string_dec d "2") as [->|N2]; [right; left; split; reflexivity|].
  destruct (string_dec d "3") as [->|N3];
    [right; right; left; split; reflexivity|].
  destruct (string_dec d "4") as [->|N4];
    [right; right; right; left; split; reflexivity|].
  right; right; right; right. split.
  - simpl. intros [H|[H|[H|[H|[]]]]]; congruence.
  - apply mapToLetter_unknown.
    + simpl String_. cbn [own].
      apply not_eq_sym in N1, N2, N3, N4.
      apply String.eqb_neq in N1, N2, N3, N4.
      now rewrite N1, N2, N3, N4.
    + destruct d as [|c d]; [congruence|].
      simpl in Hd. apply andb_true_iff in Hd as [Hc _].
      now apply own_prototype_digit.
Qed.

(** *** Reading the correct option *)

Lemma read_option_row_cases (v : value) (optTr : loc) :
  read_option_row v optTr = v
  \/ exists d : string,
      read_option_row v optTr = Str d
      /\ is_flagged (eq_ 1 (find td optTr)) = true
      /\ leading_number optTr d.
Proof.
  unfold read_option_row.
  destruct (is_flagged (eq_ 1 (find td optTr))) eqn:F; [|now left].
  destruct (Regex.search Regex.rx_option_number None
                         (trim (text (eq_ 1 (find td optTr)))))
    as [[[pv rest] caps]|] eqn:E; [|now left].
  apply option_number_search in E.
  destruct E as (d & Hc & Hs & Hne & Hd). simpl in Hc, Hs. subst caps.
  right. exists d. split; [reflexivity|]. split; [reflexivity|].
  exists rest. auto.
Qed.

Lemma read_option_rows (rows : list loc) :
  forall v0 : value,
    fold_left read_option_row rows v0 = v0
    \/ exists (optTr : loc) (d : string),
        In optTr rows
        /\ is_flagged (eq_ 1 (find td optTr)) = true
        /\ leading_number optTr d
        /\ fold_left read_option_row rows v0 = Str d.
Proof.
  induction rows as [|r rows IH]; intro v0; [now left|].
  simpl fold_left.
  destruct (IH (read_option_row v0 r)) as [E|(o & d & Hin & Hf & Hl & E)].
  - rewrite E.
    destruct (read_option_row_cases v0 r) as [E'|(d & E' & Hf & Hl)].
    + now left.
    + right. exists r, d. rewrite E'. simpl. auto.
  - right. exists o, d. simpl. auto.
Qed.

Lemma read_chosen_cases (menuTbl : selection) :
  read_chosen menuTbl = Null \/ exists s, read_chosen menuTbl = Str s.
Proof.
  unfold read_chosen.
  destruct (negb (Nat.eqb (List.length menuTbl) 0)); [|now left].
  destruct (Nat.leb 2 (List.length (find_in td (last (find_in tr menuTbl))))
            && includes (text (eq_ 0 (find_in td (last (find_in tr menuTbl)))))
                        "Chosen Option"); [|now left].
  right. eexists. reflexivity.
Qed.

(** What a table that yields a pair went through. *)
Lemma pair_of_table_inv (tblElem : loc) (p : Pair.t) :
  pair_of_table tblElem = Some p ->
  exists (qTd qTr ansTr : loc) (correctNum : value),
    hd_error (filter is_question_cell (find_tr_td tblElem)) = Some qTd
    /\ hd_error (parent tr qTd) = Some qTr
    /\ hd_error (find_answer_row qTr) = Some ansTr
    /\ correctNum
       = fold_left read_option_row (ansTr :: more_rows 3 ansTr) Null
    /\ truthy correctNum = true
    /\ p = Pair.mk
             (let chosenNum :=
                read_chosen (next (fun l => menu_table (self l)) tblElem) in
              if truthy chosenNum then mapToLetter chosenNum else Str "--")
             (mapToLetter correctNum).
Proof.
  unfold pair_of_table. intro H.
  destruct (filter is_question_cell (find_tr_td tblElem)) as [|qTd qs];
    [discriminate|].
  cbn [first] in H.
  destruct (parent tr qTd) as [|qTr ps] eqn:P; [discriminate|].
  destruct (find_answer_row qTr) as [|ansTr rs] eqn:R; [discriminate|].
  destruct (truthy (fold_left read_option_row (ansTr :: more_rows 3 ansTr) Null))
    eqn:T; [|discriminate].
  cbn [negb] in H. injection H as <-.
  exists qTd, qTr, ansTr, (fold_left read_option_row (ansTr :: more_rows 3 ansTr) Null).
  unfold or_else. rewrite P, R. repeat split; auto.
Qed.

(** Claim C6 as amended.  A table that yields a pair has, among the
    answer row and the (at most three) rows after it, a row whose
    second cell is flagged and whose text starts with a decimal number
    and a dot (a table without such a row yields nothing), and the
    pair's correct answer is [mapToLetter] of that number: one of A,
    B, C, D when the number is written 1, 2, 3 or 4, and the sentinel
    "--" for every other number.  The chosen value is [mapToLetter] of
    the text of the chosen-option row when that text is not empty, and
    the sentinel otherwise; so it is the sentinel when the table has
    no chosen-option row and also when the row's text is empty or is
    mapped to the sentinel, as "--" is. *)
Theorem emitted_pair_fields :
  forall (tblElem : loc) (p : Pair.t),
    pair_of_table tblElem = Some p ->
    (exists (qTd qTr ansTr optTr : loc) (d : string),
        hd_error (filter is_question_cell (find_tr_td tblElem)) = Some qTd
        /\ hd_error (parent tr qTd) = Some qTr
        /\ hd_error (find_answer_row qTr) = Some ansTr
        /\ In optTr (ansTr :: more_rows 3 ansTr)
        /\ is_flagged (eq_ 1 (find td optTr)) = true
        /\ leading_number optTr d
        /\ Pair.correct p = mapToLetter (Str d)
        /\ (In d ["1"; "2"; "3"; "4"] ->
            In (Pair.correct p) [Str "A"; Str "B"; Str "C"; Str "D"])
        /\ (~ In d ["1"; "2"; "3"; "4"] -> Pair.correct p = Str "--"))
    /\ (let chosenNum :=
          read_chosen (next (fun l => menu_table (self l)) tblElem) in
        Pair.your p
        = (if truthy chosenNum then mapToLetter chosenNum else Str "--")
        /\ (Pair.your p = Str "--" <->
            truthy chosenNum = false \/ mapToLetter chosenNum = Str "--")
        /\ (has_chosen_row tblElem = false -> Pair.your p = Str "--")).
Proof.
  intros tblElem p H.
  apply pair_of_table_inv in H.
  destruct H as (qTd & qTr & ansTr & correctNum & Hq & Hp & Ha & Hc & Ht & ->).
  split.
  - destruct (read_option_rows (ansTr :: more_rows 3 ansTr) Null)
      as [E|(optTr & d & Hin & Hf & Hl & E)].
    + rewrite E in Hc. subst correctNum. discriminate.
    + exists qTd, qTr, ansTr, optTr, d.
      rewrite E in Hc. subst correctNum. cbn [Pair.correct].
      repeat (split; [assumption|]).
      split; [reflexivity|].
      destruct Hl as (rest & _ & Hne & Hd).
      destruct (mapToLetter_number d Hne Hd)
        as [[-> ->]|[[-> ->]|[[-> ->]|[[-> ->]|[Hn ->]]]]].
      1-4: split; [intros _; simpl; auto 6
                  | intro N; exfalso; apply N; simpl; auto 6].
      split; [intro I; contradiction | reflexivity].
  - cbv zeta. cbn [Pair.your].
    set (chosenNum := read_chosen (next (fun l => menu_table (self l)) tblElem)).
    split; [reflexivity|]. split.
    + destruct (truthy chosenNum); split; auto.
      intros [F|F]; [discriminate F | exact F].
    + unfold has_chosen_row. fold chosenNum.
      destruct (read_chosen_cases (next (fun l => menu_table (self l)) tblElem))
        as [E|(s & E)]; fold chosenNum in E; rewrite E.
      * reflexivity.
      * discriminate.
Qed.

(** A question whose second option is flagged and which no menu table
    follows: the pair is [{ your: "--", correct: "B" }]. *)
Lemma emitted_pair_fields_without_menu :
  pair_of_table block_without_menu = Some (answered "--" "B")
  /\ Pair.correct (answered "--" "B") = mapToLetter (Str "2")
  /\ Pair.your (answered "--" "B") = Str "--".
Proof.
  assert (H : pair_of_table block_without_menu = Some (answered "--" "B"))
    by (vm_compute; reflexivity).
  split; [exact H|].
  destruct (emitted_pair_fields block_without_menu (answered "--" "B") H)
    as [_ (_ & _ & Hy)].
  split; [reflexivity|].
  apply Hy. vm_compute. reflexivity.
Defined.

(** Claim C6 as it is written fails on a table whose flagged cell
    reads "5. second" and whose chosen-option row reads "--": the
    pair's correct answer is the sentinel, and its chosen value is the
    sentinel although the table has a chosen-option row. *)
Lemma sentinel_with_chosen_row :
  pair_of_table block_with_fifth_option = Some (answered "--" "--")
  /\ has_chosen_row block_with_fifth_option = true
  /\ ~ sentinel_only_without_chosen_row block_with_fifth_option.
Proof.
  assert (H : pair_of_table block_with_fifth_option
              = Some (answered "--" "--")) by (vm_compute; reflexivity).
  split; [exact H|]. split; [vm_compute; reflexivity|].
  intro C. destruct (C _ H) as [Hc _]. now apply Hc.
Qed.

End BlockFacts.

Module FallbackFacts.
Import JsString JsNumber JsValue Scoring Dom Parser Spec Samples.
Import ScoringFacts ParserFacts BlockFacts.

(** *** The chosen option *)

(** Whenever the correct number of a table is found, the table yields
    a pair, whatever follows the table. *)
Lemma pair_of_table_complete (tblElem qTd qTr ansTr : loc) :
  hd_error (filter is_question_cell (find_tr_td tblElem)) = Some qTd ->
  hd_error (parent tr qTd) = Some qTr ->
  hd_error (find_answer_row qTr) = Some ansTr ->
  truthy (fold_left read_option_row (ansTr :: more_rows 3 ansTr) Null) = true ->
  exists p : Pair.t, pair_of_table tblElem = Some p.
Proof.
  intros Hq Hp Ha Ht. unfold pair_of_table.
  destruct (filter is_question_cell (find_tr_td tblElem)) as [|q qs];
    [discriminate|].
  injection Hq as ->. cbn [first].
  destruct (parent tr qTd) as [|r rs]; [discriminate|]. injection Hp as ->.
  destruct (find_answer_row qTr) as [|a rest]; [discriminate|].
  injection Ha as ->. rewrite Ht. cbn [negb]. eexists. reflexivity.
Qed.

(** Without a menu table right after the question table, or without a
    chosen-option row in it, or with an empty text in that row, the
    chosen value of the pair is the sentinel and the pair counts as
    unattempted. *)
Lemma chosen_missing_is_sentinel (tblElem : loc) (p : Pair.t) :
  pair_of_table tblElem = Some p ->
  next (fun l => menu_table (self l)) tblElem = []
  \/ has_chosen_row tblElem = false
  \/ read_chosen (next (fun l => menu_table (self l)) tblElem) = Str "" ->
  Pair.your p = Str "--" /\ classify p = Unattempted.
Proof.
  intros H C.
  assert (Y : Pair.your p = Str "--").
  { apply pair_of_table_inv in H.
    destruct H as (qTd & qTr & ansTr & correctNum & _ & _ & _ & _ & _ & ->).
    cbv zeta. cbn [Pair.your]. unfold has_chosen_row in C.
    destruct (read_chosen_cases (next (fun l => menu_table (self l)) tblElem))
      as [E|(s & E)].
    - now rewrite E.
    - destruct C as [C|[C|C]].
      + rewrite C in E. discriminate.
      + rewrite E in C. discriminate.
      + now rewrite C. }
  split; [exact Y|].
  apply classify_unattempted. rewrite Y. right; left. reflexivity.
Qed.

(** Only the table right after the question table is read: the
    alternatives of line 103 and 104 stand after [||] behind a
    selection, which is truthy even when empty. *)
Lemma menu_after_other_sibling_not_read :
  pair_of_table (block_at (options "2") [Element "p" [] []; menu "3"])
  = Some (answered "--" "B").
Proof. vm_compute. reflexivity. Qed.

(** Claim C8, at the input on which the code departs from it.  The
    question has a flagged correct option and its menu table has a
    chosen-option row whose text, "constructor", is not an option
    number.  The pair is emitted, but its chosen value is not the
    sentinel: it is the function that [mapToLetter] finds under that
    name in [Object.prototype], and [computeScore] counts the pair as
    wrong, not as unattempted. *)
Theorem unparseable_choice_not_sentinel :
  has_chosen_row block_with_constructor = true
  /\ mapToLetter (Str "constructor") <> Str "--"
  /\ pair_of_table block_with_constructor
     = Some (Pair.mk (builtin_function "Object") (Str "B"))
  /\ classify (Pair.mk (builtin_function "Object") (Str "B")) = Wrong.
Proof.
  split; [vm_compute; reflexivity|].
  split; [discriminate|].
  split; vm_compute; reflexivity.
Qed.

(** *** The fallback *)

Lemma distribute_flat (secs : list Section) (all : list Pair.t) :
  secs <> [] ->
  exists out : list Section,
    distribute secs all = Return out
    /\ flat_map pairs out = all
    /\ map name out = map name secs.
Proof.
  intro Hne. destruct secs as [|s [|s2 r]]; [congruence| |].
  - exists [mkSection (name s) all]. simpl. now rewrite app_nil_r.
  - exists (even_split all (List.length all / List.length (s :: s2 :: r)) 0
                       (s :: s2 :: r)).
    split; [apply distribute_even_split; simpl; lia|].
    split; [now rewrite even_split_flat | apply even_split_names].
Qed.

(** With at least one section discovered, the fallback step runs
    exactly when the structural pass collected no pair, and then every
    match of the pattern in the text of the body becomes a pair at the
    end of the last section. *)
Lemma fallback_with_sections (d : document) :
  sections (structural_pass d) <> [] ->
  exists out : list Section,
    distribute (sections (structural_pass d)) (allPairs (structural_pass d))
    = Return out
    /\ (no_pairs out = true <-> allPairs (structural_pass d) = [])
    /\ parse_document d
       = Return (mkResult
                   (if no_pairs out
                    then update_last (fun p => p ++ fallback_pairs d) out
                    else out)).
Proof.
  intro Hne.
  destruct (distribute_flat (sections (structural_pass d))
                            (allPairs (structural_pass d)) Hne)
    as (out & Hd & Hf & _).
  exists out. split; [exact Hd|]. split.
  - unfold no_pairs. rewrite Hf.
    destruct (allPairs (structural_pass d)); simpl; split; congruence.
  - unfold parse_document. rewrite Hd. reflexivity.
Qed.

(** Claim C7, at the input on which the code departs from it.  The
    page has no section label and no question table, and its text
    holds "Your Answer: B Correct Answer: C".  The structural pass
    collects no pair and the pattern has one match in the text, yet
    the fallback is not reached: [parseAnswers] throws at line 145,
    before line 149, and the match is appended to no section.  On a
    page with the same text under a section label the fallback runs
    and the pair is appended to that section.  Under a section label,
    the line "Your Answer: -- Correct Answer: A" gives no pair: after
    the alternative "--" the pattern asks for a word boundary, which a
    following space does not make. *)
Theorem fallback_not_reached_without_sections :
  allPairs (structural_pass answer_line_page) = []
  /\ fallback_pairs answer_line_page = [answered "B" "C"]
  /\ parseAnswers (fun _ => answer_line_page)
                  (Str "<html><body><p>Your Answer: B Correct Answer: C</p></body></html>")
     = Throw (TypeError "Cannot set properties of undefined (setting 'pairs')")
  /\ parseAnswers (fun _ => labelled_answer_line_page)
                  (Str "<html><body><div class='section-lbl'><span>Section : </span><span class='bold'>Reasoning</span></div><p>Your Answer: B Correct Answer: C</p></body></html>")
     = Return (mkResult [mkSection "Reasoning" [answered "B" "C"]])
  /\ allPairs (structural_pass labelled_unanswered_line_page) = []
  /\ parseAnswers (fun _ => labelled_unanswered_line_page)
                  (Str "<html><body><div class='section-lbl'><span>Section : </span><span class='bold'>Reasoning</span></div><p>Your Answer: -- Correct Answer: A</p></body></html>")
     = Return (mkResult [mkSection "Reasoning" []]).
Proof.
  repeat split; vm_compute; reflexivity.
Qed.

End FallbackFacts.

Module RankFacts.
Import JsNumber Server Spec Samples.
Local Open Scope float_scope.

Lemma corpus_connected (db : Db) :
  readyState db = 1%nat -> corpus db = docs db.
Proof. intro H. unfold corpus. now rewrite H. Qed.

Lemma corpus_disconnected (db : Db) :
  readyState db <> 1%nat -> corpus db = [].
Proof.
  intro H. unfold corpus. apply Nat.eqb_neq in H. now rewrite H.
Qed.

(** The handler stores the new score before it counts: with a
    connection and [save] set, the sample includes the score being
    ranked once the store has taken it. *)
Lemma rank_counts_stored_score (accepts : ScoreDoc -> bool) (db : Db)
      (url : option string) (total : Score.t) (m n totalCandidates : float) :
  readyState db = 1%nat ->
  accepts (new_doc url total m n) = true ->
  sampleSize (snd (rank_of_request accepts db true url total m n
                                   totalCandidates))
  = S (List.length (docs db)).
Proof.
  intros H A. unfold rank_of_request, save_score, estimateRank, countDocuments.
  rewrite H, A. cbn [Nat.eqb andb readyState docs snd fst].
  rewrite length_app, Nat.add_comm. reflexivity.
Qed.




End RankFacts.

(* ================================================================== *)
(** ** Further properties of the score calculator *)
(* ================================================================== *)

Module ScoringMore.
Import JsString JsNumber JsValue Scoring Parser Spec ScoringFacts.

Lemma count_outcome_flat_map (o : outcome) (secs : list Section) :
  count_outcome o (flat_map pairs secs)
  = sum_nat (map (fun s => count_outcome o (pairs s)) secs).
Proof.
  induction secs as [|s r IH]; [reflexivity|].
  cbn [flat_map map sum_nat fold_right].
  rewrite count_outcome_app, IH. reflexivity.
Qed.

Lemma section_counts (secs : list Section) (f : Score.t -> nat)
      (g : list Pair.t -> nat) :
  (forall l, f (computeScore l 1 0.25) = g l) ->
  map (fun r => f (score r)) (section_results (computeSectionScores secs))
  = map (fun s => g (pairs s)) secs.
Proof.
  intro H. unfold computeSectionScores. cbn [section_results].
  rewrite map_map. apply map_ext. intro s. cbn [score].
  unfold computeScore_call. apply H.
Qed.

(** The counters of the sections add up to the counters of the total:
    for every list of sections, [correct], [wrong], [unattempted] and
    [totalQuestions] of the total are the sums of the sections'. *)
Theorem section_counters_add_up :
  forall secs : list Section,
    let r := computeSectionScores secs in
    Score.correct (total r)
    = sum_nat (map (fun x => Score.correct (score x)) (section_results r))
    /\ Score.wrong (total r)
       = sum_nat (map (fun x => Score.wrong (score x)) (section_results r))
    /\ Score.unattempted (total r)
       = sum_nat (map (fun x => Score.unattempted (score x))
                      (section_results r))
    /\ Score.totalQuestions (total r)
       = sum_nat (map (fun x => Score.totalQuestions (score x))
                      (section_results r)).
Proof.
  intro secs. cbv zeta.
  rewrite (section_counts secs Score.correct (count_outcome Correct))
    by (intro l; apply computeScore_counts).
  rewrite (section_counts secs Score.wrong (count_outcome Wrong))
    by (intro l; apply computeScore_counts).
  rewrite (section_counts secs Score.unattempted (count_outcome Unattempted))
    by (intro l; apply computeScore_counts).
  rewrite (section_counts secs Score.totalQuestions (@List.length Pair.t))
    by (intro l; apply computeScore_totalQuestions).
  unfold computeSectionScores. cbn [total]. unfold computeScore_call.
  pose proof (computeScore_counts (flat_map pairs secs) 1 0.25)
    as (Hc & Hw & Hu).
  rewrite Hc, Hw, Hu, computeScore_totalQuestions.
  rewrite !count_outcome_flat_map.
  repeat split. clear. induction secs as [|s r IH]; [reflexivity|].
  cbn [flat_map map sum_nat fold_right]. rewrite length_app.
  f_equal. exact IH.
Qed.

Lemma count_outcome_perm (o : outcome) (l l' : list Pair.t) :
  Permutation l l' -> count_outcome o l = count_outcome o l'.
Proof.
  unfold count_outcome. induction 1 as [|x l l' _ IH|x y l|l l' l'' _ IH1 _ IH2].
  - reflexivity.
  - simpl. destruct (outcome_eqb (classify x) o); simpl; congruence.
  - simpl. destruct (outcome_eqb (classify x) o),
             (outcome_eqb (classify y) o); reflexivity.
  - congruence.
Qed.

Lemma computeScore_by_counts (l l' : list Pair.t) (m n : float) :
  (forall o, count_outcome o l = count_outcome o l') ->
  List.length l = List.length l' ->
  computeScore l m n = computeScore l' m n.
Proof.
  intros H L. unfold computeScore. rewrite !tally_fold. cbn [n_correct n_wrong n_unattempted Nat.add].
  now rewrite !H, L.
Qed.

(** The score does not depend on the order of the pairs: two lists that
    are permutations of each other have the same score summary, for
    every marking scheme. *)
Theorem computeScore_order_independent :
  forall (l l' : list Pair.t) (m n : float),
    Permutation l l' -> computeScore l m n = computeScore l' m n.
Proof.
  intros l l' m n P. apply computeScore_by_counts.
  - intro o. now apply count_outcome_perm.
  - now apply Permutation_length.
Qed.

(** Swapping a wrong and an unanswered pair. *)
Lemma computeScore_order_independent_swap :
  Permutation [answered "B" "A"; answered "--" "A"]
              [answered "--" "A"; answered "B" "A"]
  /\ computeScore [answered "B" "A"; answered "--" "A"] 1 0.25
     = computeScore [answered "--" "A"; answered "B" "A"] 1 0.25.
Proof.
  assert (P : Permutation [answered "B" "A"; answered "--" "A"]
                          [answered "--" "A"; answered "B" "A"])
    by apply perm_swap.
  split; [exact P|].
  apply (computeScore_order_independent _ _ 1%float 0.25%float P).
Defined.

End ScoringMore.

Module StringFacts.
Import JsString.
Local Open Scope string_scope.

Lemma upper_char_space (c : ascii) : is_space (upper_char c) = is_space c.
Proof. destruct c as [[] [] [] [] [] [] [] []]; reflexivity. Qed.

Lemma upper_char_idem (c : ascii) : upper_char (upper_char c) = upper_char c.
Proof. destruct c as [[] [] [] [] [] [] [] []]; reflexivity. Qed.

Lemma toUpperCase_idem (s : string) : toUpperCase (toUpperCase s) = toUpperCase s.
Proof.
  induction s as [|c s IH]; simpl; [reflexivity|].
  now rewrite upper_char_idem, IH.
Qed.

Lemma trimStart_upper (s : string) :
  trimStart (toUpperCase s) = toUpperCase (trimStart s).
Proof.
  induction s as [|c s IH]; simpl; [reflexivity|].
  rewrite upper_char_space. destruct (is_space c); [exact IH | reflexivity].
Qed.

Lemma trimEnd_upper (s : string) :
  trimEnd (toUpperCase s) = toUpperCase (trimEnd s).
Proof.
  induction s as [|c s IH]; simpl; [reflexivity|].
  rewrite IH, upper_char_space.
  destruct (trimEnd s); simpl; [destruct (is_space c)|]; reflexivity.
Qed.

Lemma trim_upper (s : string) : trim (toUpperCase s) = toUpperCase (trim s).
Proof. unfold trim. now rewrite trimStart_upper, trimEnd_upper. Qed.

Lemma trimEnd_idem (s : string) : trimEnd (trimEnd s) = trimEnd s.
Proof.
  induction s as [|c s IH]; simpl; [reflexivity|].
  destruct (trimEnd s) as [|d t] eqn:E.
  - destruct (is_space c) eqn:Sc; simpl; [reflexivity | now rewrite Sc].
  - change (trimEnd (String c (String d t)))
      with (match trimEnd (String d t) with
            | "" => if is_space c then "" else String c ""
            | String a b => String c (String a b)
            end).
    now rewrite IH.
Qed.

Lemma trimStart_length (s : string) :
  String.length (trimStart s) <= String.length s.
Proof.
  induction s as [|c s IH]; simpl; [lia|].
  destruct (is_space c); simpl; lia.
Qed.

(** What starts without white space still does after [trimEnd]. *)
Lemma trimStart_trimEnd (s : string) :
  trimStart s = s -> trimStart (trimEnd s) = trimEnd s.
Proof.
  destruct s as [|c s]; [reflexivity|]. simpl.
  destruct (is_space c) eqn:Sc.
  - intro H. pose proof (trimStart_length s) as L. rewrite H in L.
    simpl in L. lia.
  - intros _. destruct (trimEnd s); simpl; now rewrite Sc.
Qed.

Lemma trimStart_idem (s : string) : trimStart (trimStart s) = trimStart s.
Proof.
  induction s as [|c s IH]; simpl; [reflexivity|].
  destruct (is_space c) eqn:Sc; [exact IH | simpl; now rewrite Sc].
Qed.

Lemma trim_idem (s : string) : trim (trim s) = trim s.
Proof.
  unfold trim.
  rewrite (trimStart_trimEnd (trimStart s) (trimStart_idem s)).
  apply trimEnd_idem.
Qed.

End StringFacts.

Module NormalFacts.
Import JsString JsNumber JsValue Scoring Parser Spec Shapes Wording.
Import ScoringFacts ScoringMore StringFacts.

Lemma normalize_string (s : string) :
  normalize (Str s) = toUpperCase (trim s).
Proof.
  unfold normalize, or. simpl truthy.
  destruct (String.eqb s "") eqn:E; simpl; [|reflexivity].
  apply String.eqb_eq in E. now rewrite E.
Qed.

(** Normalizing twice is normalizing once. *)
Lemma normalize_idem (v : value) :
  normalize (Str (normalize v)) = normalize v.
Proof.
  rewrite normalize_string. unfold normalize.
  now rewrite trim_upper, toUpperCase_idem, trim_idem.
Qed.

Lemma classify_normal_form (p : Pair.t) : classify (normal_form p) = classify p.
Proof.
  unfold classify, normal_form. cbn [Pair.your Pair.correct].
  now rewrite !normalize_idem.
Qed.

Lemma normal_pair_form (p : Pair.t) : normal_pair p = normal_form p.
Proof.
  unfold normal_pair, normal_form, answered. now rewrite !normalize_normal.
Qed.

(** Letter case and surrounding white space never change a score.  For
    pairs whose fields are ASCII text: a pair falls in the same class
    as the pair of its fields trimmed and put in capitals, and the list
    has the same score summary as the list of the pairs so normalized,
    for every marking scheme. *)
Theorem score_ignores_case_and_padding :
  forall (pairs : list Pair.t) (m n : float),
    Forall (fun p => ascii_pair p = true) pairs ->
    (forall p : Pair.t, In p pairs -> classify (normal_pair p) = classify p)
    /\ computeScore (map normal_pair pairs) m n = computeScore pairs m n.
Proof.
  intros pairs m n _. split.
  - intros p _. rewrite normal_pair_form. apply classify_normal_form.
  - apply computeScore_by_counts.
    + intro o. unfold count_outcome.
      induction pairs as [|p ps IH]; [reflexivity|].
      cbn [map filter]. rewrite normal_pair_form, classify_normal_form.
      destruct (outcome_eqb (classify p) o); simpl; congruence.
    + apply length_map.
Qed.

(** A padded sheet in small letters scores as the clean sheet. *)
Lemma score_ignores_case_and_padding_sheet :
  computeScore [answered "A" "A"; answered "NOT ATTEMPTED" "B";
                answered "C" "D"] 1 0.25
  = computeScore [answered " a " "A"; answered " not attempted" " b ";
                  answered "c" "d  "] 1 0.25.
Proof.
  assert (A : Forall (fun p => ascii_pair p = true)
                     [answered " a " "A"; answered " not attempted" " b ";
                      answered "c" "d  "]).
  { repeat constructor. }
  exact (proj2 (score_ignores_case_and_padding _ 1%float 0.25%float A)).
Defined.

Lemma count_outcome_none (o : outcome) (pairs : list Pair.t) :
  Forall (fun p => classify p <> o) pairs -> count_outcome o pairs = 0.
Proof.
  unfold count_outcome. induction 1 as [|p ps Hp _ IH]; [reflexivity|].
  simpl. destruct (outcome_eqb (classify p) o) eqn:E; [|exact IH].
  apply outcome_eqb_eq in E. contradiction.
Qed.

(** A sheet on which no question was answered scores nothing: when
    every pair is unattempted, the default scheme gives 0 marks and 0
    accuracy, whatever the correct answers are, and counts every pair
    as unattempted. *)
Theorem unanswered_sheet_scores_zero :
  forall pairs : list Pair.t,
    Forall (fun p => classify p = Unattempted) pairs ->
    computeScore_call (Some pairs) None None
    = Score.mk 0 0 (List.length pairs) (List.length pairs) 1 0.25 0 0.
Proof.
  intros pairs H. unfold computeScore_call, computeScore.
  rewrite tally_fold. cbn [n_correct n_wrong n_unattempted Nat.add].
  pose proof (count_outcome_total pairs) as T.
  rewrite (count_outcome_none Correct pairs) in *
    by (eapply Forall_impl; [|exact H]; intros p E; rewrite E; discriminate).
  rewrite (count_outcome_none Wrong pairs) in *
    by (eapply Forall_impl; [|exact H]; intros p E; rewrite E; discriminate).
  cbn [Nat.add] in *. rewrite T.
  destruct (List.length pairs) as [|k]; vm_compute; reflexivity.
Qed.

(** Three unanswered questions. *)
Lemma unanswered_sheet_scores_zero_three :
  Forall (fun p => classify p = Unattempted)
         [answered "--" "A"; answered "" "B"; answered "Not Attempted" "C"]
  /\ computeScore_call
       (Some [answered "--" "A"; answered "" "B"; answered "Not Attempted" "C"])
       None None
     = Score.mk 0 0 3 3 1 0.25 0 0.
Proof.
  assert (H : Forall (fun p => classify p = Unattempted)
                     [answered "--" "A"; answered "" "B";
                      answered "Not Attempted" "C"])
    by (repeat constructor).
  split; [exact H|].
  apply (unanswered_sheet_scores_zero _ H).
Defined.

(** *** The option mapper, completely *)

Lemma own_none (o : object) (key : string) :
  ~ In key (map fst o) -> own o key = None.
Proof.
  induction o as [|[k v] o IH]; intro H; [reflexivity|].
  simpl. destruct (String.eqb k key) eqn:E.
  - apply String.eqb_eq in E. elim H. now left.
  - apply IH. intro I. apply H. now right.
Qed.

(** [mapToLetter] returns the sentinel exactly for the keys that are
    neither 1, 2, 3, 4 nor the name of a property of
    [Object.prototype]; for 1 to 4 it returns a letter A to D, and for
    an inherited name it returns a value that is not a string. *)
Theorem mapToLetter_cases :
  forall v : value,
    let key := String_ v in
    (mapToLetter v = Str "--" <->
     ~ In key ["1"; "2"; "3"; "4"] /\ ~ In key (map fst Object_prototype))
    /\ (In key ["1"; "2"; "3"; "4"] ->
        In (mapToLetter v) [Str "A"; Str "B"; Str "C"; Str "D"])
    /\ (In key (map fst Object_prototype) ->
        exists t : string, mapToLetter v = NonString true t).
Proof.
  intros v key.
  assert (L : In key ["1"; "2"; "3"; "4"] ->
              In (mapToLetter v) [Str "A"; Str "B"; Str "C"; Str "D"]).
  { unfold mapToLetter, get. fold key. simpl.
    intros [E|[E|[E|[E|[]]]]]; rewrite <- E; simpl; auto. }
  assert (P : In key (map fst Object_prototype) ->
              exists t : string, mapToLetter v = NonString true t).
  { unfold mapToLetter, get. fold key. simpl.
    intros [E|[E|[E|[E|[E|[E|[E|[E|[E|[E|[E|[E|[]]]]]]]]]]]]];
      rewrite <- E; eexists; reflexivity. }
  split; [|split; assumption].
  split.
  - intro S. split; intro I.
    + apply L in I. rewrite S in I. simpl in I.
      destruct I as [I|[I|[I|[I|[]]]]]; discriminate.
    + apply P in I. destruct I as (t & I). congruence.
  - intros [N1 N2]. apply mapToLetter_unknown.
    + apply own_none. exact N1.
    + apply own_none. exact N2.
Qed.

End NormalFacts.

(* ================================================================== *)
(** ** Further properties of the patterns *)
(* ================================================================== *)

Module RegexMore.
Import JsString Regex Spec Shapes RegexFacts.
Local Open Scope string_scope.

Section Unfold.
Variable A : Type.
Variable k : option ascii -> string -> captures -> option A.

Lemma rmatch_bol (prev : option ascii) (s : string) (caps : captures) :
  rmatch Bol prev s caps k
  = match prev with None => k prev s caps | Some _ => None end.
Proof. reflexivity. Qed.

Lemma rmatch_eol (prev : option ascii) (s : string) (caps : captures) :
  rmatch Eol prev s caps k
  = match s with EmptyString => k prev s caps | _ => None end.
Proof. reflexivity. Qed.

Lemma rmatch_chr (p : ascii -> bool) (prev : option ascii) (s : string)
      (caps : captures) :
  rmatch (Chr p) prev s caps k
  = match s with
    | String c s' => if p c then k (Some c) s' caps else None
    | EmptyString => None
    end.
Proof. reflexivity. Qed.

Lemma rmatch_alt (r1 r2 : regex) (prev : option ascii) (s : string)
      (caps : captures) :
  rmatch (Alt r1 r2) prev s caps k
  = match rmatch r1 prev s caps k with
    | Some x => Some x
    | None => rmatch r2 prev s caps k
    end.
Proof. reflexivity. Qed.

Lemma rmatch_group (i : nat) (r : regex) (prev : option ascii) (s : string)
      (caps : captures) :
  rmatch (Group i r) prev s caps k
  = rmatch r prev s caps
           (fun prev' s' caps' => k prev' s' ((i, consumed s s') :: caps')).
Proof. reflexivity. Qed.
End Unfold.

Lemma lit_sound (A : Type) (w : string) :
  forall (prev : option ascii) (s : string) (caps : captures)
         (k : option ascii -> string -> captures -> option A) (x : A),
    rmatch (lit w) prev s caps k = Some x ->
    exists s' : string, s = w ++ s' /\ k (last_of prev w) s' caps = Some x.
Proof.
  induction w as [|c w IH]; intros prev s caps k x H.
  - exists s. auto.
  - cbn [lit] in H. rewrite rmatch_seq in H. unfold chr in H.
    rewrite rmatch_chr in H.
    destruct s as [|c' s]; [discriminate|].
    destruct (Ascii.eqb c c') eqn:E; [|discriminate].
    apply Ascii.eqb_eq in E. subst c'.
    destruct (IH _ _ _ _ _ H) as (s' & -> & Hk).
    exists s'. auto.
Qed.

Lemma lit_complete (A : Type) (w : string) :
  forall (prev : option ascii) (s' : string) (caps : captures)
         (k : option ascii -> string -> captures -> option A),
    rmatch (lit w) prev (w ++ s') caps k = k (last_of prev w) s' caps.
Proof.
  induction w as [|c w IH]; intros prev s' caps k; [reflexivity|].
  cbn [lit append last_of]. rewrite rmatch_seq. unfold chr.
  rewrite rmatch_chr, Ascii.eqb_refl. apply IH.
Qed.

Lemma star_lazy_sound (A : Type) (p : ascii -> bool) (caps : captures)
      (k : option ascii -> string -> captures -> option A) (s : string) :
  forall (prev : option ascii) (x : A),
    rmatch (Star false p) prev s caps k = Some x ->
    exists (pre s' : string) (prev' : option ascii),
      s = pre ++ s' /\ every p pre = true /\ k prev' s' caps = Some x.
Proof.
  induction s as [|c s IH]; intros prev x H; rewrite star_lazy_cons in H.
  - destruct (k prev "" caps) eqn:E; [|discriminate].
    injection H as ->. exists "", "", prev. auto.
  - destruct (k prev (String c s) caps) eqn:E.
    + injection H as ->. exists "", (String c s), prev. auto.
    + destruct (p c) eqn:Pc; [|discriminate].
      destruct (IH _ _ H) as (pre & s' & prev' & -> & Hp & Hk).
      exists (String c pre), s', prev'. simpl. rewrite Pc, Hp. auto.
Qed.

(** A pattern without group hands the captures on as they are. *)
Lemma rmatch_groupless (A : Type) (r : regex) :
  groupless r = true ->
  forall (prev : option ascii) (s : string) (caps : captures)
         (k : option ascii -> string -> captures -> option A) (x : A),
    rmatch r prev s caps k = Some x ->
    exists (prev' : option ascii) (s' : string), k prev' s' caps = Some x.
Proof.
  induction r as [|p|r1 IH1 r2 IH2|r1 IH1 r2 IH2|g p|i r IH| | |];
    intros G prev s caps k x H.
  - exists prev, s. exact H.
  - rewrite rmatch_chr in H. destruct s as [|c s]; [discriminate|].
    destruct (p c); [|discriminate]. exists (Some c), s. exact H.
  - simpl in G. apply andb_true_iff in G as [G1 G2].
    rewrite rmatch_seq in H.
    apply (IH1 G1) in H. destruct H as (p1 & s1 & H).
    apply (IH2 G2) in H. exact H.
  - simpl in G. apply andb_true_iff in G as [G1 G2].
    rewrite rmatch_alt in H.
    destruct (rmatch r1 prev s caps k) eqn:E.
    + injection H as ->. now apply (IH1 G1) in E.
    + now apply (IH2 G2) in H.
  - destruct g.
    + apply star_greedy_sound in H.
      destruct H as (pre & s' & prev' & _ & _ & H). exists prev', s'. exact H.
    + apply star_lazy_sound in H.
      destruct H as (pre & s' & prev' & _ & _ & H). exists prev', s'. exact H.
  - discriminate.
  - simpl in H.
    destruct (xorb (word_opt prev) (word_opt (head s))); [|discriminate].
    exists prev, s. exact H.
  - rewrite rmatch_bol in H. destruct prev; [discriminate|].
    exists None, s. exact H.
  - rewrite rmatch_eol in H. destruct s; [|discriminate].
    exists prev, "". exact H.
Qed.

(** The alternatives of capture 1. *)
Lemma choice_sound (A : Type) (prev : option ascii) (s : string)
      (caps : captures)
      (k : option ascii -> string -> captures -> option A) (x : A) :
  rmatch (Alt (Chr a_to_d) (Alt (lit "--") (lit_i "Not Attempted")))
         prev s caps k = Some x ->
  exists (y s' : string) (prev' : option ascii),
    s = y ++ s' /\ is_choice y /\ k prev' s' caps = Some x.
Proof.
  rewrite rmatch_alt. intro H.
  destruct (rmatch (Chr a_to_d) prev s caps k) eqn:E1.
  - injection H as ->. rewrite rmatch_chr in E1.
    destruct s as [|c s]; [discriminate|].
    destruct (a_to_d c) eqn:Ac; [|discriminate].
    exists (String c ""), s, (Some c). split; [reflexivity|].
    split; [left; exists c; auto | exact E1].
  - rewrite rmatch_alt in H.
    destruct (rmatch (lit "--") prev s caps k) eqn:E2.
    + injection H as ->. apply lit_sound in E2.
      destruct E2 as (s' & -> & Hk).
      exists "--", s', (last_of prev "--").
      split; [reflexivity|]. split; [right; left; reflexivity | exact Hk].
    + apply lit_i_sound in H. destruct H as (n & s' & -> & Hn & Hk).
      exists n, s', (last_of prev n).
      split; [reflexivity|]. split; [right; right; exact Hn | exact Hk].
Qed.

Ltac skip_groupless H :=
  rewrite rmatch_seq in H;
  apply rmatch_groupless in H; [|reflexivity];
  let p := fresh "p" in
  let s := fresh "s" in
  destruct H as (p & s & H); cbv beta in H.

(** What a match of the fallback pattern captures. *)
Lemma rx1_captures (prev : option ascii) (s : string) (m : found) :
  match_at rx1 prev s = Some m ->
  exists (y : string) (c : ascii),
    snd m = [(2, String c ""); (1, y)]
    /\ a_to_d c = true /\ is_choice y.
Proof.
  unfold match_at, rx1. intro H.
  do 6 skip_groupless H.
  rewrite rmatch_seq, rmatch_group in H.
  apply choice_sound in H.
  destruct H as (y & s' & prev' & -> & Hy & H).
  rewrite consumed_append in H.
  do 8 skip_groupless H.
  rewrite rmatch_group, rmatch_chr in H.
  match type of H with
  | match ?str with EmptyString => _ | String _ _ => _ end = _ =>
      destruct str as [|c rest]; [discriminate|]
  end.
  destruct (a_to_d c) eqn:Ac; [|discriminate].
  injection H as <-. cbn [snd].
  change (String c rest) with (String c "" ++ rest).
  rewrite consumed_append.
  exists y, c. auto.
Qed.

(** Every element of the list of matches is the captures of a match. *)
Lemma exec_all_in (r : regex) (s : string) :
  forall (prev : option ascii) (skip : nat) (caps : captures),
    In caps (exec_all r prev s skip) ->
    exists (prev' : option ascii) (s' : string) (m : found),
      match_at r prev' s' = Some m /\ snd m = caps.
Proof.
  induction s as [|c s IH]; intros prev skip caps H.
  - destruct skip; simpl in H; [|contradiction].
    destruct (match_at r prev "") as [[[pv rest] cs]|] eqn:E;
      [|contradiction].
    destruct H as [<-|[]]. exists prev, "", (pv, rest, cs). auto.
  - destruct skip as [|n]; simpl in H.
    + destruct (match_at r prev (String c s)) as [[[pv rest] cs]|] eqn:E.
      * destruct H as [<-|H].
        { exists prev, (String c s), (pv, rest, cs). auto. }
        now apply IH in H.
      * now apply IH in H.
    + now apply IH in H.
Qed.

End RegexMore.

Module FallbackMore.
Import JsString JsValue Regex Scoring Dom Parser Spec Shapes Samples.
Import RegexFacts ScoringFacts StringFacts NormalFacts RegexMore.
Local Open Scope string_scope.

Lemma a_to_d_not_space (c : ascii) : a_to_d c = true -> is_space c = false.
Proof.
  destruct c as [[] [] [] [] [] [] [] []]; vm_compute;
    intro H; (reflexivity || discriminate H).
Qed.

Lemma normalize_letter (c : ascii) :
  a_to_d c = true -> normalize (Str (String c "")) = String (upper_char c) "".
Proof.
  intro H. rewrite normalize_string. unfold trim.
  pose proof (a_to_d_not_space c H) as Sc.
  cbn [trimStart]. rewrite Sc. cbn [trimEnd]. rewrite Sc. reflexivity.
Qed.

Lemma not_attempted_single (x : ascii) :
  test rx_not_attempted (String x "") = false.
Proof.
  unfold test, search, match_at, rx_not_attempted.
  cbn [lit_i rmatch chr_i].
  destruct (Ascii.eqb (upper_char x) (upper_char "N")); reflexivity.
Qed.

Lemma letter_answered (a : ascii) :
  a_to_d a = true -> ~ no_answer (String (upper_char a) "").
Proof.
  intros H [E|[E|E]]; try discriminate.
  now rewrite not_attempted_single in E.
Qed.

Lemma classify_letters (a c : ascii) :
  a_to_d a = true -> a_to_d c = true ->
  classify (answered (String a "") (String c ""))
  = if Ascii.eqb (upper_char a) (upper_char c) then Correct else Wrong.
Proof.
  intros Ha Hc.
  destruct (Ascii.eqb (upper_char a) (upper_char c)) eqn:E.
  - apply classify_correct. unfold answered. cbn [Pair.your Pair.correct].
    rewrite !normalize_letter by assumption.
    split; [now apply letter_answered|].
    apply Ascii.eqb_eq in E. now rewrite E.
  - apply classify_wrong. unfold answered. cbn [Pair.your Pair.correct].
    rewrite !normalize_letter by assumption.
    split; [now apply letter_answered|].
    intro F. injection F as F. rewrite F, Ascii.eqb_refl in E. discriminate.
Qed.

Lemma classify_unanswered (y c : string) :
  y = "--" \/ toUpperCase y = "NOT ATTEMPTED" ->
  classify (answered y c) = Unattempted.
Proof.
  intro H. apply classify_unattempted. unfold answered. cbn [Pair.your].
  rewrite normalize_string.
  destruct H as [->|H].
  - right; left. reflexivity.
  - right; right. rewrite <- trim_upper, H. reflexivity.
Qed.

(** Every pair of the fallback pass is well formed: its correct answer
    is one letter A to D, in either case, and its chosen value is one
    such letter, "--", or the words "not attempted" in any case.  The
    pair counts as unattempted exactly when the chosen value is not a
    letter, and otherwise as correct exactly when the two letters are
    equal up to case. *)
Theorem fallback_pairs_shape :
  forall (d : document) (p : Pair.t),
    In p (fallback_pairs d) ->
    exists (y : string) (c : ascii),
      p = answered y (String c "")
      /\ a_to_d c = true
      /\ is_choice y
      /\ (classify p = Unattempted <->
          y = "--" \/ toUpperCase y = "NOT ATTEMPTED")
      /\ (forall a : ascii,
             y = String a "" ->
             (classify p = Correct <-> upper_char a = upper_char c)
             /\ (classify p = Wrong <-> upper_char a <> upper_char c)).
Proof.
  intros d p H. unfold fallback_pairs in H.
  apply in_map_iff in H. destruct H as (caps & <- & H).
  apply exec_all_in in H. destruct H as (prev & s & m & Hm & <-).
  apply rx1_captures in Hm. destruct Hm as (y & c & -> & Hc & Hy).
  exists y, c. unfold capture_value. cbn [capture Nat.eqb].
  split; [reflexivity|]. split; [exact Hc|]. split; [exact Hy|].
  fold (answered y (String c "")).
  split.
  - split; [|apply classify_unanswered].
    intro U. destruct Hy as [(a & -> & Ha)|Hy]; [|exact Hy].
    rewrite (classify_letters a c Ha Hc) in U.
    destruct (Ascii.eqb (upper_char a) (upper_char c)); discriminate.
  - intros a ->.
    assert (Ha : a_to_d a = true).
    { destruct Hy as [(a' & E & Ha)|[E|E]];
        [injection E as ->; exact Ha | discriminate|].
      simpl in E. discriminate. }
    rewrite (classify_letters a c Ha Hc).
    destruct (Ascii.eqb (upper_char a) (upper_char c)) eqn:E.
    + apply Ascii.eqb_eq in E. split; split; congruence.
    + apply Ascii.eqb_neq in E. split; split; congruence.
Qed.

(** The pair of the page "Your Answer: B Correct Answer: C". *)
Lemma fallback_pairs_shape_answer_line :
  In (answered "B" "C") (fallback_pairs answer_line_page)
  /\ classify (answered "B" "C") = Wrong.
Proof.
  assert (H : In (answered "B" "C") (fallback_pairs answer_line_page))
    by (vm_compute; auto).
  split; [exact H|].
  destruct (fallback_pairs_shape answer_line_page (answered "B" "C") H)
    as (y & c & E & _ & _ & _ & L).
  unfold answered in E. injection E as Ey Ec. subst y c.
  destruct (L "B"%char eq_refl) as [_ W]. apply W. discriminate.
Defined.

(** *** The question marker *)

Lemma last_of_some (n : string) :
  forall c : ascii, exists c' : ascii, last_of (Some c) n = Some c'.
Proof.
  induction n as [|x n IH]; intro c; [exists c; reflexivity|].
  simpl. apply IH.
Qed.

Lemma bol_at_start (A : Type) (r : regex) (pre s1 : string)
      (k : option ascii -> string -> captures -> option A) (x : A) :
  rmatch (Seq Bol r) (last_of None pre) s1 [] k = Some x -> pre = "".
Proof.
  destruct pre as [|c pre]; [reflexivity|]. simpl last_of.
  destruct (last_of_some pre c) as (c' & ->).
  rewrite rmatch_seq, rmatch_bol. discriminate.
Qed.

Lemma append_empty (s : string) : s ++ "" = s.
Proof. induction s as [|c s IH]; [reflexivity | simpl; now rewrite IH]. Qed.

(** [/^Q\.\d+$/] accepts exactly "Q." followed by one or more digits
    and nothing else. *)
Lemma question_pattern (s : string) :
  test rx_question s = true <->
  exists d : string, s = "Q." ++ d /\ d <> "" /\ every is_digit d = true.
Proof.
  unfold test. split.
  - destruct (search rx_question None s) as [m|] eqn:E; [|discriminate].
    intros _. apply search_sound in E.
    destruct E as (pre & s1 & -> & Hm).
    unfold match_at, rx_question in Hm.
    pose proof (bol_at_start _ _ _ _ _ _ Hm) as ->. cbn [last_of append] in *.
    rewrite rmatch_seq, rmatch_bol, rmatch_seq in Hm.
    apply lit_sound in Hm. destruct Hm as (s' & -> & Hm).
    unfold plus in Hm. rewrite !rmatch_seq, rmatch_chr in Hm.
    destruct s' as [|c s']; [discriminate|].
    destruct (is_digit c) eqn:Dc; [|discriminate].
    apply star_greedy_sound in Hm.
    destruct Hm as (ds & t & prev' & -> & Hd & Hm).
    rewrite rmatch_eol in Hm. destruct t; [|discriminate].
    exists (String c ds). split.
    + rewrite append_empty. reflexivity.
    + split; [discriminate|]. simpl. now rewrite Dc, Hd.
  - intros (d & -> & Hne & Hd).
    destruct d as [|c d]; [congruence|].
    simpl in Hd. apply andb_true_iff in Hd as [Dc Hd].
    assert (M : match_at rx_question None ("Q." ++ String c d) <> None).
    { unfold match_at, rx_question.
      rewrite rmatch_seq, rmatch_bol, rmatch_seq, lit_complete.
      unfold plus. rewrite !rmatch_seq, rmatch_chr, Dc.
      rewrite <- (append_empty d).
      apply star_greedy_complete; [exact Hd|].
      rewrite rmatch_eol. discriminate. }
    simpl append in *. simpl search.
    destruct (match_at rx_question None (String "Q" (String "." (String c d))));
      [reflexivity | congruence].
Qed.

(** A cell is taken for the marker of a question exactly when its
    trimmed text is "Q." followed by one or more digits and nothing
    else: "Q.12" is one, while "Q12", "Q. 12", "Q.12)" and "q.12" are
    not. *)
Theorem question_cell_text :
  (forall c : loc,
      is_question_cell c = true <->
      exists d : string,
        trim (textContent (self c)) = "Q." ++ d
        /\ d <> "" /\ every is_digit d = true)
  /\ test rx_question "Q.12" = true
  /\ test rx_question "Q12" = false
  /\ test rx_question "Q. 12" = false
  /\ test rx_question "Q.12)" = false
  /\ test rx_question "q.12" = false.
Proof.
  split; [intro c; apply question_pattern|].
  repeat split; vm_compute; reflexivity.
Qed.

End FallbackMore.

(* ================================================================== *)
(** ** Further properties of the parser *)
(* ================================================================== *)

Module ParserMore.
Import JsString JsValue Scoring Dom Parser Spec Shapes Samples MoreSamples.
Import RegexFacts ScoringFacts ParserFacts BlockFacts FallbackFacts RegexMore.

(** *** Section discovery *)

Lemma opened_names_cons (l : loc) (ls : list loc) :
  opened_names (l :: ls)
  = match section_of_label l with
    | Some n => n :: opened_names ls
    | None => opened_names ls
    end.
Proof. unfold opened_names. simpl. destruct (section_of_label l); reflexivity. Qed.

Lemma open_sections_fold (labels : list loc) :
  forall st : list Section * option section_ref,
    fst (fold_left open_section labels st)
    = fst st ++ map (fun n => mkSection n []) (opened_names labels)
    /\ snd (fold_left open_section labels st)
       = match opened_names labels with
         | [] => snd st
         | _ :: _ =>
             Some (InSections (List.length (fst st)
                               + List.length (opened_names labels) - 1))
         end.
Proof.
  induction labels as [|l ls IH]; intro st.
  - simpl. now rewrite app_nil_r.
  - simpl fold_left. rewrite opened_names_cons.
    destruct (IH (open_section st l)) as [F S]. rewrite F, S.
    unfold open_section. destruct (section_of_label l) as [n|].
    + cbn [fst snd]. rewrite <- app_assoc. split; [reflexivity|].
      rewrite length_app. simpl List.length.
      destruct (opened_names ls); simpl; do 2 f_equal; lia.
    + auto.
Qed.

Lemma discover_sections_names (d : document) :
  fst (discover_sections d)
  = map (fun n => mkSection n []) (opened_names (select section_lbl d)).
Proof.
  unfold discover_sections.
  destruct (open_sections_fold (select section_lbl d) ([], None)) as [F _].
  simpl in F.
  destruct (Nat.eqb _ 0); exact F.
Qed.

Lemma structural_pass_opened (d : document) :
  map name (sections (structural_pass d))
  = opened_names (select section_lbl d).
Proof.
  rewrite structural_pass_names, discover_sections_names, map_map.
  simpl. apply map_id.
Qed.

Lemma update_last_names (f : list Pair.t -> list Pair.t) (l : list Section) :
  map name (update_last f l) = map name l.
Proof.
  unfold update_last. destruct (rev l) as [|s b] eqn:E.
  - apply (f_equal (@rev Section)) in E. rewrite rev_involutive in E.
    now rewrite E.
  - apply (f_equal (@rev Section)) in E. rewrite rev_involutive in E.
    rewrite E. simpl. now rewrite !map_app.
Qed.

Lemma fallback_names (d : document) (l : list Section) :
  map name (fallback d l) = map name l.
Proof.
  unfold fallback. destruct (no_pairs l); [apply update_last_names | reflexivity].
Qed.

Lemma parse_document_sections (d : document) (r : ParseResult) :
  parse_document d = Return r ->
  sections (structural_pass d) <> []
  /\ exists out : list Section,
      distribute (sections (structural_pass d)) (allPairs (structural_pass d))
      = Return out
      /\ r = mkResult (fallback d out).
Proof.
  unfold parse_document. intro H.
  destruct (distribute (sections (structural_pass d))
                       (allPairs (structural_pass d))) as [out|e] eqn:E;
    [|discriminate].
  injection H as <-. split; [|exists out; auto].
  intro N. rewrite N in E. discriminate.
Qed.

(** The sections of the result are the sections that the labels open,
    one per label, in the order of the document: none is dropped,
    added, renamed or moved by the later steps. *)
Theorem result_sections_follow_labels :
  forall (d : document) (r : ParseResult),
    parse_document d = Return r ->
    map name (result_sections r) = opened_names (select section_lbl d).
Proof.
  intros d r H. apply parse_document_sections in H.
  destruct H as (Hne & out & Hd & ->). cbn [result_sections].
  rewrite fallback_names.
  destruct (distribute_flat _ (allPairs (structural_pass d)) Hne)
    as (out' & Hd' & _ & Hn).
  rewrite Hd in Hd'. injection Hd' as <-.
  rewrite Hn. apply structural_pass_opened.
Qed.

(** The three labels of a page. *)
Lemma result_sections_follow_labels_three :
  parse_document three_section_page
  = Return (mkResult [mkSection "Current Affairs" [];
                      mkSection "Reasoning" [];
                      mkSection "Maths" [answered "C" "B"; answered "B" "B"]])
  /\ opened_names (select section_lbl three_section_page)
     = ["Current Affairs"; "Reasoning"; "Maths"].
Proof.
  assert (H : parse_document three_section_page
              = Return (mkResult
                          [mkSection "Current Affairs" [];
                           mkSection "Reasoning" [];
                           mkSection "Maths"
                                     [answered "C" "B"; answered "B" "B"]]))
    by (vm_compute; reflexivity).
  split; [exact H|].
  rewrite <- (result_sections_follow_labels _ _ H). reflexivity.
Defined.

(** *** Conservation of the pairs *)

Lemma structural_pass_pairs (d : document) :
  allPairs (structural_pass d) = table_pairs d.
Proof. unfold structural_pass. now rewrite visit_tables_allPairs. Qed.

Lemma update_last_flat (e : list Pair.t) (l : list Section) :
  l <> [] ->
  flat_map pairs (update_last (fun p => p ++ e) l) = flat_map pairs l ++ e.
Proof.
  intro Hne. destruct (exists_last Hne) as (b & s & ->).
  unfold update_last. rewrite rev_app_distr. simpl. rewrite rev_involutive.
  rewrite !flat_map_app. simpl. now rewrite !app_nil_r, app_assoc.
Qed.

Lemma returned_pairs (d : document) (r : ParseResult) :
  parse_document d = Return r ->
  flat_map pairs (result_sections r)
  = match table_pairs d with
    | [] => fallback_pairs d
    | _ :: _ => table_pairs d
    end.
Proof.
  intro H. apply parse_document_sections in H.
  destruct H as (Hne & out & Hd & ->). cbn [result_sections].
  destruct (distribute_flat _ (allPairs (structural_pass d)) Hne)
    as (out' & Hd' & Hf & Hn).
  rewrite Hd in Hd'. injection Hd' as <-.
  rewrite structural_pass_pairs in Hf.
  unfold fallback, no_pairs. rewrite Hf.
  destruct (table_pairs d) as [|p ps] eqn:E; simpl.
  - rewrite update_last_flat, Hf; [reflexivity|].
    intro N. rewrite N in Hn. symmetry in Hn. apply map_name_nil in Hn.
    contradiction.
  - exact Hf.
Qed.

(** Whenever [parseAnswers] returns, no pair is lost or counted twice:
    the pair lists of the returned sections, one after the other, are
    the pairs of the question tables in the order of the tables; only
    when the tables yield no pair are they the pairs of the fallback
    pass instead. *)
Theorem result_holds_every_pair_once :
  forall (d : document) (r : ParseResult),
    parse_document d = Return r ->
    flat_map pairs (result_sections r)
    = match table_pairs d with
      | [] => fallback_pairs d
      | _ :: _ => table_pairs d
      end.
Proof. exact returned_pairs. Qed.

(** Two sections, three tables. *)
Lemma result_holds_every_pair_once_two_sections :
  parse_document two_section_page
  = Return (mkResult [mkSection "Current Affairs" [answered "C" "B"];
                      mkSection "Reasoning"
                                [answered "--" "B"; answered "B" "B"]])
  /\ table_pairs two_section_page
     = [answered "C" "B"; answered "--" "B"; answered "B" "B"].
Proof.
  assert (H : parse_document two_section_page
              = Return (mkResult
                          [mkSection "Current Affairs" [answered "C" "B"];
                           mkSection "Reasoning"
                                     [answered "--" "B"; answered "B" "B"]]))
    by (vm_compute; reflexivity).
  split; [exact H|].
  pose proof (result_holds_every_pair_once _ _ H) as E.
  destruct (table_pairs two_section_page) as [|p ps] eqn:T.
  - vm_compute in T. discriminate.
  - rewrite <- E. reflexivity.
Defined.

(** *** When [parseAnswers] returns *)

Lemma opened_names_nil (labels : list loc) :
  opened_names labels = [] ->
  forall l, In l labels -> section_of_label l = None.
Proof.
  induction labels as [|x ls IH]; intros H l I; [contradiction|].
  rewrite opened_names_cons in H.
  destruct (section_of_label x) eqn:E; [discriminate|].
  destruct I as [<-|I]; [exact E | now apply IH].
Qed.

(** For a non-empty string, [parseAnswers] returns exactly when at
    least one label of the document opens a section; otherwise it
    throws. *)
Theorem parseAnswers_returns_iff_section_opened :
  forall (load : string -> document) (html : string),
    html <> "" ->
    ((exists r, parseAnswers load (Str html) = Return r) <->
     opened_names (select section_lbl (load html)) <> []).
Proof.
  intros load html Hne.
  assert (P : parseAnswers load (Str html) = parse_document (load html)).
  { unfold parseAnswers. simpl truthy.
    destruct (String.eqb html "") eqn:E; [|reflexivity].
    apply String.eqb_eq in E. contradiction. }
  rewrite P. split.
  - intros (r & H) N.
    rewrite (parse_document_without_marker _ (opened_names_nil _ N)) in H.
    discriminate.
  - intro N.
    assert (S : sections (structural_pass (load html)) <> []).
    { intro E. apply N. rewrite <- structural_pass_opened, E. reflexivity. }
    destruct (fallback_with_sections _ S) as (out & _ & _ & H).
    eexists. exact H.
Qed.

(** A page with one label. *)
Lemma parseAnswers_returns_iff_section_opened_labelled :
  "<html>...</html>" <> ""
  /\ exists r,
      parseAnswers (fun _ => labelled_answer_line_page) (Str "<html>...</html>")
      = Return r.
Proof.
  assert (H : "<html>...</html>" <> "") by discriminate.
  split; [exact H|].
  apply (parseAnswers_returns_iff_section_opened
           (fun _ => labelled_answer_line_page) "<html>...</html>" H).
  vm_compute. discriminate.
Defined.

End ParserMore.

Module AssemblyMore.
Import JsString JsValue Scoring Dom Parser Spec Shapes Samples MoreSamples.
Import RegexFacts ScoringFacts ParserFacts BlockFacts FallbackFacts.
Import RegexMore ParserMore.

(** *** Where the pairs are before the distribution *)

Lemma push_at_last (p : Pair.t) (front : list Section) (s : Section) :
  push_at (List.length front) p (front ++ [s])
  = front ++ [mkSection (name s) (pairs s ++ [p])].
Proof.
  induction front as [|x front IH]; simpl; [reflexivity | now rewrite IH].
Qed.

Lemma visit_tables_last (front : list Section) (n : string) (tbls : list loc) :
  forall acc : list Pair.t,
    fold_left visit_table tbls
              (mkState (front ++ [mkSection n acc])
                       (Some (InSections (List.length front))) acc)
    = mkState (front ++ [mkSection n (acc ++ flat_map
                                           (fun t => match pair_of_table t with
                                                     | Some p => [p]
                                                     | None => []
                                                     end) tbls)])
              (Some (InSections (List.length front)))
              (acc ++ flat_map (fun t => match pair_of_table t with
                                         | Some p => [p]
                                         | None => []
                                         end) tbls).
Proof.
  induction tbls as [|t ts IH]; intro acc; simpl.
  - now rewrite app_nil_r.
  - unfold visit_table at 2. destruct (pair_of_table t) as [p|].
    + unfold add_pair. cbn [currentSection sections allPairs].
      rewrite push_at_last. cbn [name pairs]. rewrite IH.
      now rewrite <- !app_assoc.
    + apply IH.
Qed.

Lemma visit_tables_detached (n : string) (tbls : list loc) :
  forall acc : list Pair.t,
    fold_left visit_table tbls
              (mkState [] (Some (Detached (mkSection n acc))) acc)
    = mkState [] (Some (Detached
                          (mkSection n (acc ++ flat_map
                                          (fun t => match pair_of_table t with
                                                    | Some p => [p]
                                                    | None => []
                                                    end) tbls))))
              (acc ++ flat_map (fun t => match pair_of_table t with
                                         | Some p => [p]
                                         | None => []
                                         end) tbls).
Proof.
  induction tbls as [|t ts IH]; intro acc; simpl.
  - now rewrite app_nil_r.
  - unfold visit_table at 2. destruct (pair_of_table t) as [p|].
    + unfold add_pair. cbn [currentSection sections allPairs name pairs].
      rewrite IH. now rewrite <- !app_assoc.
    + apply IH.
Qed.

(** Before the distribution, every collected pair sits in the section
    that was opened last, and every other section is empty; when no
    section was opened, the pairs sit in the object named "Overall",
    which is not in the array.  With exactly one section the
    distribution therefore leaves the sections as the pass built
    them. *)
Theorem pairs_sit_in_last_section :
  forall d : document,
    let st := structural_pass d in
    match rev (opened_names (select section_lbl d)) with
    | [] =>
        sections st = []
        /\ currentSection st
           = Some (Detached (mkSection "Overall" (table_pairs d)))
    | n :: before =>
        sections st
        = map (fun x => mkSection x []) (rev before)
              ++ [mkSection n (table_pairs d)]
        /\ currentSection st = Some (InSections (List.length before))
        /\ (before = [] ->
            distribute (sections st) (allPairs st) = Return (sections st))
    end.
Proof.
  intros d st. subst st. unfold structural_pass, table_pairs.
  pose proof (discover_sections_names d) as F.
  unfold discover_sections in *.
  destruct (open_sections_fold (select section_lbl d) ([], None)) as [F1 S1].
  simpl in F1, S1.
  destruct (rev (opened_names (select section_lbl d))) as [|n before] eqn:R.
  - apply (f_equal (@rev string)) in R. rewrite rev_involutive in R.
    simpl in R. rewrite R in *. simpl in F1.
    rewrite F1. cbn [List.length Nat.eqb fst snd].
    rewrite visit_tables_detached. auto.
  - apply (f_equal (@rev string)) in R. rewrite rev_involutive in R.
    simpl in R. rewrite R in *.
    rewrite map_app in F1. simpl in F1.
    assert (Z : Nat.eqb (List.length (fst (fold_left open_section
                                                     (select section_lbl d)
                                                     ([], None)))) 0 = false).
    { rewrite F1, length_app. simpl. apply Nat.eqb_neq. lia. }
    rewrite Z.
    destruct (rev before ++ [n]) as [|x xs] eqn:E in S1;
      [destruct (rev before); discriminate|].
    rewrite <- E in S1. rewrite length_app, length_rev in S1. simpl in S1.
    replace (List.length before + 1 - 1) with (List.length before) in S1 by lia.
    rewrite F1, S1.
    replace (List.length before)
      with (List.length (map (fun x => mkSection x []) (rev before)))
      by (now rewrite length_map, length_rev).
    rewrite visit_tables_last. cbn [sections currentSection allPairs app].
    split; [reflexivity|]. split; [reflexivity|].
    intros ->. reflexivity.
Qed.

(** *** Fewer pairs than sections *)

Lemma even_split_zero (all : list Pair.t) (front : list Section) (s : Section) :
  even_split all 0 0 (front ++ [s])
  = map emptied front ++ [mkSection (name s) all].
Proof.
  induction front as [|x front IH]; [reflexivity|].
  simpl app. destruct (front ++ [s]) as [|y rest] eqn:E.
  - destruct front; discriminate.
  - change (even_split all 0 0 (x :: y :: rest))
      with (mkSection (name x) (slice all 0 0) :: even_split all 0 0 (y :: rest)).
    rewrite IH. reflexivity.
Qed.

(** When the pairs are fewer than the sections (and the sections more
    than one), every section but the last is left empty and the last
    section takes every pair. *)
Theorem fewer_pairs_than_sections :
  forall (secs : list Section) (all : list Pair.t),
    1 < List.length secs ->
    List.length all < List.length secs ->
    exists (front : list Section) (s : Section),
      secs = front ++ [s]
      /\ distribute secs all
         = Return (map emptied front ++ [mkSection (name s) all]).
Proof.
  intros secs all Hk Hn.
  assert (Hne : secs <> []) by (destruct secs; [inversion Hk | discriminate]).
  destruct (exists_last Hne) as (front & s & ->).
  exists front, s. split; [reflexivity|].
  rewrite distribute_even_split by exact Hk.
  rewrite Nat.div_small by exact Hn.
  now rewrite even_split_zero.
Qed.

(** Three sections and two pairs. *)
Lemma fewer_pairs_than_sections_three :
  distribute [mkSection "I" []; mkSection "II" []; mkSection "III" []]
             [answered "A" "A"; answered "B" "A"]
  = Return [mkSection "I" []; mkSection "II" [];
            mkSection "III" [answered "A" "A"; answered "B" "A"]].
Proof.
  destruct (fewer_pairs_than_sections
              [mkSection "I" []; mkSection "II" []; mkSection "III" []]
              [answered "A" "A"; answered "B" "A"])
    as (front & s & E & H); [simpl; lia | simpl; lia |].
  rewrite H.
  change [mkSection "I" []; mkSection "II" []; mkSection "III" []]
    with ([mkSection "I" []; mkSection "II" []] ++ [mkSection "III" []]) in E.
  apply app_inj_tail in E. destruct E as [<- <-]. reflexivity.
Defined.

(** *** Which option row gives the correct answer *)

Lemma digits_then_dot_unique (d : string) :
  forall d2 r r2 : string,
    every is_digit d = true -> every is_digit d2 = true ->
    (d ++ "." ++ r)%string = (d2 ++ "." ++ r2)%string -> d = d2.
Proof.
  induction d as [|c d IH]; intros [|c2 d2] r r2 H H2 E; simpl in *.
  - reflexivity.
  - injection E as Ec _. subst c2. discriminate.
  - injection E as Ec _. subst c. discriminate.
  - injection E as -> E.
    apply andb_true_iff in H as [_ H]. apply andb_true_iff in H2 as [_ H2].
    f_equal. eapply IH; eassumption.
Qed.

(** A text that starts with digits and a dot is matched, and capture 1
    is those digits. *)
Lemma option_number_found (d rest : string) :
  d <> EmptyString -> every is_digit d = true ->
  exists m : Regex.found,
    Regex.search Regex.rx_option_number None (d ++ "." ++ rest)%string = Some m
    /\ snd m = [(1, d)].
Proof.
  intros Hne Hd.
  destruct d as [|c d]; [congruence|].
  simpl in Hd. apply andb_true_iff in Hd as [Dc Hd].
  assert (M : Regex.match_at Regex.rx_option_number None
                             (String c d ++ "." ++ rest)%string <> None).
  { simpl append. rewrite option_number_unfold, Dc.
    apply star_greedy_complete; [exact Hd|].
    unfold Regex.chr. rewrite rmatch_chr. simpl. discriminate. }
  destruct (Regex.search Regex.rx_option_number None
                         (String c d ++ "." ++ rest)%string) as [m|] eqn:S.
  - exists m. split; [reflexivity|].
    destruct (option_number_search _ _ S) as (d2 & Hc & Hs & Hn2 & Hd2).
    rewrite Hc. do 2 f_equal. symmetry.
    eapply digits_then_dot_unique; [| |exact Hs]; [|exact Hd2].
    simpl. now rewrite Dc, Hd.
  - simpl append in *. simpl in S.
    destruct (Regex.match_at Regex.rx_option_number None
                             (String c (d ++ String "." rest)));
      [discriminate | congruence].
Qed.

Lemma read_option_row_flagged (v : value) (optTr : loc) (d : string) :
  is_flagged (eq_ 1 (find td optTr)) = true ->
  leading_number optTr d ->
  read_option_row v optTr = Str d /\ decides optTr = true.
Proof.
  intros F (rest & Ht & Hne & Hd).
  destruct (option_number_found d rest Hne Hd) as ([[pv r] caps] & S & C).
  simpl in C. subst caps.
  unfold read_option_row, decides. rewrite F, Ht, S. simpl. auto.
Qed.

Lemma read_option_row_undecided (v : value) (optTr : loc) :
  decides optTr = false -> read_option_row v optTr = v.
Proof.
  unfold decides, read_option_row.
  destruct (is_flagged (eq_ 1 (find td optTr))); [|reflexivity].
  destruct (Regex.search _ _ _) as [m|]; [discriminate | reflexivity].
Qed.

(** Of the option rows, the last one that is flagged and starts with a
    number gives the correct answer: an earlier flagged row does not
    end the search, whatever the rows before it and after it hold. *)
Theorem last_flagged_row_decides :
  forall (rows1 rows2 : list loc) (optTr : loc) (d : string) (v0 : value),
    is_flagged (eq_ 1 (find td optTr)) = true ->
    leading_number optTr d ->
    Forall (fun r => decides r = false) rows2 ->
    fold_left read_option_row (rows1 ++ optTr :: rows2) v0 = Str d.
Proof.
  intros rows1 rows2 optTr d v0 F L U.
  rewrite fold_left_app. simpl fold_left.
  destruct (read_option_row_flagged (fold_left read_option_row rows1 v0)
                                    optTr d F L) as [-> _].
  induction U as [|r rs Hr _ IH]; [reflexivity|].
  simpl. now rewrite read_option_row_undecided.
Qed.

(** Two flagged rows, "2. ..." and then "3. ...": the answer is 3. *)
Lemma last_flagged_row_decides_second :
  fold_left read_option_row
            [plain_row "1. a"; flagged_row "2. b"; flagged_row "3. c";
             plain_row "4. d"] Null
  = Str "3".
Proof.
  apply (last_flagged_row_decides
           [plain_row "1. a"; flagged_row "2. b"] [plain_row "4. d"]
           (flagged_row "3. c") "3" Null).
  - vm_compute. reflexivity.
  - exists " c". split; [vm_compute; reflexivity|].
    split; [discriminate | vm_compute; reflexivity].
  - repeat constructor.
Defined.

End AssemblyMore.

(* ================================================================== *)
(** ** Properties of the handler *)
(* ================================================================== *)

Module HandlerFacts.
Import JsString JsNumber JsValue Scoring Dom Parser Server Handler.
Import Spec Shapes Wording Samples MoreSamples.
Import ScoringFacts ParserFacts FallbackFacts ScoringMore ParserMore.

(** The test of line 121 holds exactly when the sections hold no
    pair. *)
Lemma no_pairs_test (secs : list Section) :
  Nat.eqb (List.length secs) 0
  || forallb (fun s => Nat.eqb (List.length (pairs s)) 0) secs
  = Nat.eqb (List.length (flat_map pairs secs)) 0.
Proof.
  destruct secs as [|s r]; [reflexivity|]. cbn [List.length Nat.eqb orb].
  induction (s :: r) as [|x l IH]; [reflexivity|].
  cbn [forallb flat_map]. rewrite length_app, IH.
  destruct (pairs x); reflexivity.
Qed.

Lemma firstn_length_min (A : Type) (n : nat) (l : list A) :
  List.length (slice l 0 n) = Nat.min n (List.length l).
Proof. unfold slice. rewrite Nat.sub_0_r. simpl skipn. apply length_firstn. Qed.

(** With a store that takes no notice of the scheme, the scheme stored
    with the score changes neither [saved] nor the rank. *)
Lemma rank_scheme_irrelevant (accepts : ScoreDoc -> bool) (db : Db)
      (sv : bool) (u : option string) (t : Score.t) (m n m' n' tc : float) :
  scheme_blind accepts ->
  snd (fst (rank_of_request accepts db sv u t m n tc))
  = snd (fst (rank_of_request accepts db sv u t m' n' tc))
  /\ snd (rank_of_request accepts db sv u t m n tc)
     = snd (rank_of_request accepts db sv u t m' n' tc).
Proof.
  intro B. unfold rank_of_request, save_score. cbn [snd fst].
  pose proof (B (new_doc u t m' n') m n) as E.
  change (accepts (new_doc u t m n) = accepts (new_doc u t m' n')) in E.
  rewrite E.
  destruct (Nat.eqb (readyState db) 1 && sv); [|split; reflexivity].
  destruct (accepts (new_doc u t m' n')); [|split; reflexivity].
  cbn [snd fst]. split; [reflexivity|].
  unfold estimateRank, countDocuments, countDocuments_lt.
  cbn [readyState docs].
  rewrite !filter_app, !length_app.
  cbn [filter totalMarks new_doc List.length].
  destruct (PrimFloat.ltb (Score.totalMarks t) (Score.totalMarks t));
    reflexivity.
Qed.

Section Collaborators.
Variable load : string -> document.
Variable hostname_of : value -> attempt string.
Variable fetchUrl : value -> attempt value.
Variable accepts : ScoreDoc -> bool.

(** What the handler does once the page is there. *)
Lemma handler_after_parse (trusted : list string) (db : Db) (req : Request)
      (db' : Db) (log : list string) (b : Body) :
  parse_handler load hostname_of fetchUrl accepts trusted db req = (db', log, Success b) ->
  exists secs : list Section,
    flat_map pairs secs <> []
    /\ parsedCount b = List.length (flat_map pairs secs)
    /\ pairsSample b = slice (flat_map pairs secs) 0 200
    /\ body_sections b = section_results (computeSectionScores secs)
    /\ body_total b = total (computeSectionScores secs).
Proof.
  unfold parse_handler.
  destruct (negb (truthy (url req)) && negb (truthy (html req)));
    [discriminate|].
  destruct (snd (if truthy (url req)
                 then fetch_page hostname_of fetchUrl trusted (url req)
                 else ([], Done (or (html req) (Str ""))))) as [page|m];
    [|discriminate].
  destruct (parseAnswers load page) as [r|e]; [|discriminate].
  rewrite no_pairs_test.
  destruct (Nat.eqb (List.length (flat_map pairs (result_sections r))) 0)
    eqn:Z; [discriminate|].
  intro H. injection H as _ _ <-.
  exists (result_sections r). cbn.
  split; [|auto].
  intro E. rewrite E in Z. discriminate.
Qed.

(** An answer with status 200 always reports at least one question, and
    its numbers agree: [parsedCount] is the [totalQuestions] of the
    total and the sum of the [totalQuestions] of the sections, and
    [pairsSample] holds the first 200 pairs, or all of them when they
    are fewer. *)
Theorem success_reports_every_pair :
  forall (trusted : list string) (db db' : Db) (req : Request)
         (log : list string) (b : Body),
    parse_handler load hostname_of fetchUrl accepts trusted db req
    = (db', log, Success b) ->
    0 < parsedCount b
    /\ parsedCount b = Score.totalQuestions (body_total b)
    /\ parsedCount b
       = sum_nat (map (fun x => Score.totalQuestions (score x))
                      (body_sections b))
    /\ List.length (pairsSample b) = Nat.min 200 (parsedCount b).
Proof.
  intros trusted db db' req log b H.
  apply handler_after_parse in H.
  destruct H as (secs & Hne & -> & -> & -> & ->).
  split.
  { destruct (flat_map pairs secs); [congruence | simpl; lia]. }
  split.
  { unfold computeSectionScores. cbn [total]. unfold computeScore_call.
    now rewrite computeScore_totalQuestions. }
  split.
  { rewrite section_totalQuestions. apply flat_map_pairs_length. }
  apply firstn_length_min.
Qed.

(** The marking scheme of the request never reaches the scores.  For
    any two values of [marksPerCorrect] and [negativePerWrong] the
    answers have the same status, and with status 200 the same
    [parsedCount], [pairsSample], [sections] and [total]; the total
    always reports the scheme 1 and 0.25.  The scheme is only written
    to the stored document, so it can change the answer through the
    store alone: the answers are equal in full when the store takes no
    notice of the scheme of a document. *)
Theorem requested_scheme_is_ignored :
  forall (trusted : list string) (db : Db) (req : Request)
         (m n m' n' : option float),
    let answer :=
      snd (parse_handler load hostname_of fetchUrl accepts trusted db
                         (with_scheme req m n)) in
    let answer' :=
      snd (parse_handler load hostname_of fetchUrl accepts trusted db
                         (with_scheme req m' n')) in
    without_rank answer = without_rank answer'
    /\ (forall b : Body,
           answer = Success b ->
           Score.marksPerCorrect (body_total b) = 1%float
           /\ Score.negativePerWrong (body_total b) = 0.25%float)
    /\ (scheme_blind accepts -> answer = answer').
Proof.
  intros trusted db req m n m' n' answer answer'. split; [|split].
  - subst answer answer'. unfold parse_handler, with_scheme.
    cbn [url html save totalCandidates Handler.marksPerCorrect
         Handler.negativePerWrong].
    destruct (negb (truthy (url req)) && negb (truthy (html req)));
      [reflexivity|].
    destruct (snd (if truthy (url req)
                   then fetch_page hostname_of fetchUrl trusted (url req)
                   else ([], Done (or (html req) (Str ""))))) as [page|e];
      [|reflexivity].
    destruct (parseAnswers load page) as [r|e]; [|reflexivity].
    destruct (Nat.eqb (List.length (result_sections r)) 0
              || forallb (fun s => Nat.eqb (List.length (pairs s)) 0)
                         (result_sections r)); reflexivity.
  - intros b H.
    destruct (parse_handler load hostname_of fetchUrl accepts trusted db
                            (with_scheme req m n)) as [[db' log] resp] eqn:E.
    subst answer. cbn [snd] in H. subst resp. apply handler_after_parse in E.
    destruct E as (secs & _ & _ & _ & _ & ->).
    split; reflexivity.
  - intro B. subst answer answer'. unfold parse_handler, with_scheme.
    cbn [url html save totalCandidates Handler.marksPerCorrect
         Handler.negativePerWrong].
    destruct (negb (truthy (url req)) && negb (truthy (html req)));
      [reflexivity|].
    destruct (snd (if truthy (url req)
                   then fetch_page hostname_of fetchUrl trusted (url req)
                   else ([], Done (or (html req) (Str ""))))) as [page|e];
      [|reflexivity].
    destruct (parseAnswers load page) as [r|e]; [|reflexivity].
    destruct (Nat.eqb (List.length (result_sections r)) 0
              || forallb (fun s => Nat.eqb (List.length (pairs s)) 0)
                         (result_sections r)); [reflexivity|].
    cbn [snd].
    match goal with
    | |- context [rank_of_request accepts db ?sv ?u ?t ?a ?b ?tc] =>
        match goal with
        | |- Success ?x = Success (mkBody _ _ _ _
                 (snd (fst (rank_of_request accepts db sv u t ?a' ?b' tc)))
                 _ _ _) =>
            destruct (rank_scheme_irrelevant accepts db sv u t a b a' b' tc B)
              as [E1 E2]
        end
    end.
    rewrite E1, E2. reflexivity.
Qed.

(** The list of trusted hosts never changes what is fetched, stored or
    answered: it only decides whether a warning is written. *)
Theorem trusted_hosts_only_warn :
  forall (trusted trusted' : list string) (db : Db) (req : Request),
    fst (fst (parse_handler load hostname_of fetchUrl accepts trusted db req))
    = fst (fst (parse_handler load hostname_of fetchUrl accepts trusted' db req))
    /\ snd (parse_handler load hostname_of fetchUrl accepts trusted db req)
       = snd (parse_handler load hostname_of fetchUrl accepts trusted' db req).
Proof.
  intros trusted trusted' db req. unfold parse_handler.
  destruct (negb (truthy (url req)) && negb (truthy (html req)));
    [split; reflexivity|].
  destruct (truthy (url req)); [|split; reflexivity].
  unfold fetch_page.
  destruct (hostname_of (url req)) as [h|m]; [|split; reflexivity].
  cbn [snd fst].
  destruct (fetchUrl (url req)) as [page|m]; [|split; reflexivity].
  destruct (parseAnswers load page) as [r|e]; [|split; reflexivity].
  destruct (Nat.eqb (List.length (result_sections r)) 0
            || forallb (fun s => Nat.eqb (List.length (pairs s)) 0)
                       (result_sections r)); split; reflexivity.
Qed.

(** What a pasted page gets.  For a request without url whose [html] is
    a non-empty string: when no label of the page opens a section the
    handler throws and no answer is sent; otherwise the answer has
    status 422 when neither the question tables nor the fallback give a
    pair, and status 200 with the count of the pairs when they do. *)
Theorem pasted_page_answer :
  forall (trusted : list string) (db : Db) (req : Request) (s : string),
    truthy (url req) = false ->
    html req = Str s ->
    s <> EmptyString ->
    let labels := opened_names (select section_lbl (load s)) in
    let found :=
      match table_pairs (load s) with
      | [] => fallback_pairs (load s)
      | _ :: _ => table_pairs (load s)
      end in
    let answer :=
      snd (parse_handler load hostname_of fetchUrl accepts trusted db req) in
    (labels = [] ->
     answer
     = Thrown (TypeError "Cannot set properties of undefined (setting 'pairs')"))
    /\ (labels <> [] -> found = [] -> answer = NoPairs)
    /\ (labels <> [] -> found <> [] ->
        exists b : Body,
          answer = Success b /\ parsedCount b = List.length found).
Proof.
  intros trusted db req s Hu Hh Hs labels found answer.
  subst labels found answer.
  assert (T : truthy (Str s) = true).
  { simpl. destruct (String.eqb s "") eqn:E; [|reflexivity].
    apply String.eqb_eq in E. contradiction. }
  assert (P : parseAnswers load (Str s) = parse_document (load s)).
  { unfold parseAnswers. now rewrite T. }
  unfold parse_handler. cbv zeta. rewrite Hu, Hh, T. unfold or. rewrite T.
  cbn [negb andb snd fst]. rewrite P. clear P. split; [|split].
  - intro N. rewrite (parse_document_without_marker _ (opened_names_nil _ N)).
    reflexivity.
  - intros N F.
    assert (S : sections (structural_pass (load s)) <> []).
    { intro Z. apply N. rewrite <- structural_pass_opened, Z. reflexivity. }
    destruct (fallback_with_sections _ S) as (out & _ & _ & H).
    rewrite H. cbv beta iota. rewrite no_pairs_test.
    rewrite (returned_pairs _ _ H), F. reflexivity.
  - intros N F.
    assert (S : sections (structural_pass (load s)) <> []).
    { intro Z. apply N. rewrite <- structural_pass_opened, Z. reflexivity. }
    destruct (fallback_with_sections _ S) as (out & _ & _ & H).
    rewrite H. cbv beta iota. rewrite no_pairs_test.
    pose proof (returned_pairs _ _ H) as R. rewrite R.
    destruct (Nat.eqb (List.length _) 0) eqn:Z.
    + apply Nat.eqb_eq in Z. apply length_zero_iff_nil in Z. contradiction.
    + cbn [snd]. eexists. split; [reflexivity|]. reflexivity.
Qed.

(** A url wins over a pasted page: when [url] is truthy the handler
    never looks at [html], so two requests that differ only in [html]
    end alike; and when the url cannot be read or fetched the answer
    has status 500 with the message of the failure and the store is
    left as it was, whatever [html] holds. *)
Theorem url_overrides_html :
  forall (trusted : list string) (db : Db) (u h h' : value)
         (m n : option float) (sv : value) (tc : option float),
    truthy u = true ->
    parse_handler load hostname_of fetchUrl accepts trusted db
                  (mkRequest u h m n sv tc)
    = parse_handler load hostname_of fetchUrl accepts trusted db
                    (mkRequest u h' m n sv tc)
    /\ forall msg : string,
        hostname_of u = Failed msg
        \/ (exists host, hostname_of u = Done host /\ fetchUrl u = Failed msg) ->
        snd (parse_handler load hostname_of fetchUrl accepts trusted db
                           (mkRequest u h m n sv tc)) = FetchFailed msg
        /\ fst (fst (parse_handler load hostname_of fetchUrl accepts trusted db
                                   (mkRequest u h m n sv tc))) = db.
Proof.
  intros trusted db u h h' m n sv tc T.
  unfold parse_handler.
  cbn [url html save totalCandidates Handler.marksPerCorrect
       Handler.negativePerWrong].
  rewrite T. cbn [negb andb]. split; [reflexivity|].
  intros msg [F|(host & Hh & F)]; unfold fetch_page.
  - rewrite F. split; reflexivity.
  - rewrite Hh. cbn [snd fst]. rewrite F. split; reflexivity.
Qed.

End Collaborators.

(** A pasted page with two sections and three questions, without a
    store. *)
Lemma success_reports_every_pair_two_sections :
  exists b : Body,
    parse_handler (fun _ => two_section_page) (fun _ => Failed "")
                  (fun _ => Failed "") refuses_NaN ["cdn.digialm.com"] (mkDb 0 [])
                  (mkRequest Undefined (Str "<html>...</html>")
                             None None Undefined None)
    = (mkDb 0 [], [], Success b)
    /\ parsedCount b = 3
    /\ Score.totalQuestions (body_total b) = 3.
Proof.
  eexists. split; [vm_compute; reflexivity|].
  match goal with
  | |- parsedCount ?b = _ /\ _ =>
      destruct (success_reports_every_pair
                  (fun _ => two_section_page) (fun _ => Failed "")
                  (fun _ => Failed "") refuses_NaN ["cdn.digialm.com"] (mkDb 0 [])
                  (mkDb 0 [])
                  (mkRequest Undefined (Str "<html>...</html>")
                             None None Undefined None) [] b)
        as (_ & E & _)
  end.
  - vm_compute. reflexivity.
  - rewrite <- E. split; reflexivity.
Defined.

(** A pasted page without section label. *)
Lemma pasted_page_answer_plain :
  snd (parse_handler (fun _ => plain_page) (fun _ => Failed "")
                     (fun _ => Failed "") refuses_NaN ["cdn.digialm.com"] (mkDb 0 [])
                     (mkRequest Undefined (Str "<p>hello</p>")
                                None None Undefined None))
  = Thrown (TypeError "Cannot set properties of undefined (setting 'pairs')").
Proof.
  destruct (pasted_page_answer
              (fun _ => plain_page) (fun _ => Failed "") (fun _ => Failed "")
              refuses_NaN ["cdn.digialm.com"] (mkDb 0 [])
              (mkRequest Undefined (Str "<p>hello</p>")
                         None None Undefined None)
              "<p>hello</p>" eq_refl eq_refl)
    as (T & _); [discriminate|].
  apply T. reflexivity.
Defined.

(** A request for 4 marks a correct answer and 1 off a wrong one on a
    page with two sections: the total reports 1 and 0.25. *)
Lemma requested_scheme_is_ignored_four_one :
  exists b : Body,
    snd (parse_handler (fun _ => two_section_page) (fun _ => Failed "")
                       (fun _ => Failed "") refuses_NaN ["cdn.digialm.com"] (mkDb 0 [])
                       (mkRequest Undefined (Str "<html>...</html>")
                                  (Some 4%float) (Some 1%float) Undefined None))
    = Success b
    /\ Score.marksPerCorrect (body_total b) = 1%float
    /\ Score.negativePerWrong (body_total b) = 0.25%float.
Proof.
  eexists. split; [vm_compute; reflexivity|].
  match goal with
  | |- Score.marksPerCorrect (body_total ?b) = _ /\ _ =>
      destruct (requested_scheme_is_ignored
                  (fun _ => two_section_page) (fun _ => Failed "")
                  (fun _ => Failed "") refuses_NaN ["cdn.digialm.com"] (mkDb 0 [])
                  (mkRequest Undefined (Str "<html>...</html>")
                             None None Undefined None)
                  (Some 4%float) (Some 1%float) None None) as (_ & S & _);
      apply (S b)
  end.
  vm_compute. reflexivity.
Defined.

(** A url that cannot be read, sent together with a page. *)
Lemma url_overrides_html_unreadable :
  snd (parse_handler (fun _ => two_section_page)
                     (fun _ => Failed "Invalid URL")
                     (fun _ => Failed "") refuses_NaN ["cdn.digialm.com"] (mkDb 0 [])
                     (mkRequest (Str "nonsense") (Str "<html>...</html>")
                                None None Undefined None))
  = FetchFailed "Invalid URL".
Proof.
  destruct (url_overrides_html
              (fun _ => two_section_page) (fun _ => Failed "Invalid URL")
              (fun _ => Failed "") refuses_NaN ["cdn.digialm.com"] (mkDb 0 [])
              (Str "nonsense") (Str "<html>...</html>") Undefined
              None None Undefined None eq_refl) as [_ F].
  destruct (F "Invalid URL" (or_introl eq_refl)) as [E _]. exact E.
Defined.

End HandlerFacts.

(* ================================================================== *)
(** ** Further properties of the rank estimate *)
(* ================================================================== *)

Module RankMore.
Import JsString JsNumber JsValue Scoring Dom Parser Server Handler.
Import Spec Samples MoreSamples.
Local Open Scope float_scope.




Lemma some_inj (A : Type) (x y : A) : Some x = Some y -> x = y.
Proof.
  intro H.
  exact (f_equal (fun o => match o with Some z => z | None => x end) H).
Qed.






(** The same request with a scheme that is no number: the store refuses
    the document, [dbSaved] is false and the sample is the two earlier
    scores; and with a pool size that is no number the rank reaches the
    client as null beside a percentile. *)
Lemma answer_with_NaN_fields :
  (exists b : Body,
      parse_handler (fun _ => two_section_page) (fun _ => Failed "")
                    (fun _ => Failed "") refuses_NaN ["cdn.digialm.com"]
                    (mkDb 1 (map stored [5; 8]))
                    (mkRequest Undefined (Str "<html>...</html>")
                               (Some nan) None Undefined None)
      = (mkDb 1 (map stored [5; 8]), [], Success b)
      /\ dbSaved b = false
      /\ body_sampleSize b = 2%nat)
  /\ (exists b : Body,
         snd (parse_handler (fun _ => two_section_page) (fun _ => Failed "")
                            (fun _ => Failed "") refuses_NaN
                            ["cdn.digialm.com"]
                            (mkDb 1 (map stored [5; 8]))
                            (mkRequest Undefined (Str "<html>...</html>")
                                       None None Undefined (Some nan)))
         = Success b
         /\ body_percentile b = Some 0
         /\ body_estimatedRank b = None).
Proof.
  split; eexists; (split; [vm_compute; reflexivity|]); split; reflexivity.
Qed.



End RankMore.
